(** * GenAILiveClient: the connection and session life cycle of the live API client

    A shallow embedding of [GenAILiveClient] (lib/genai-live-client.ts): its
    private fields as a record, its methods as computations in a state and
    exception monad over the client and its environment (durable storage,
    timers, the event bus, the transport, the random source), and the
    properties of the reconnect policy, of the retry loop, of the message
    demultiplexer and of the session-handle store.

    Conventions. A handler runs without interruption up to an [await]. The
    one [await] of the class is on the open of the transport, in [connect],
    and through it in [_reconnect]. The methods are given twice: run to
    completion, the open being answered at once by the transport given as a
    parameter, and cut at the suspension, with the opens in flight kept
    beside the client and settled by a step of their own ([act], [play]);
    the first is the second with nothing in between. A subscriber of an
    event may raise, but does not call back into the client from inside the
    dispatch. Numbers that the code computes with (delays, the jitter) are
    rationals, counters and close codes are integers. A [string | null]
    field is an [option string], tested for truthiness where the code does.
    Entries of the log carry no date. *)

From Stdlib Require Import ZArith QArith Qround Lqa String Ascii List Lia.
From Stdlib.Strings Require Import Byte.
From stdpp Require Import gmap strings list fin_maps pretty.

Import ListNotations.
Local Open Scope string_scope.
Local Open Scope Z_scope.
Local Open Scope list_scope.

(** ** Values that cross the transport *)

(** The connection status, a three-valued string union in the source. *)
Inductive Status := connected | disconnected | connecting.

#[global] Instance Status_eq_dec : EqDecision Status.
Proof. solve_decision. Defined.

Definition status_text (s : Status) : string :=
  match s with
  | connected => "connected"
  | disconnected => "disconnected"
  | connecting => "connecting"
  end.

(** A thrown value: an [Error] instance with its message, or anything else
    (shown through [String(e)]). *)
Inductive Thrown :=
| ErrorObject (message : string)
| OtherValue (shown : string).

(** [error instanceof Error ? error.message : 'Unknown error'] *)
Definition errorMessage (e : Thrown) : string :=
  match e with
  | ErrorObject m => m
  | OtherValue _ => "Unknown error"
  end.

(** [e instanceof Error ? e.message : String(e)] *)
Definition errorText (e : Thrown) : string :=
  match e with
  | ErrorObject m => m
  | OtherValue s => s
  end.

Definition ArrayBuffer := list Byte.byte.

(** [Blob] and [Part] of the SDK: every field is optional. *)
Record Blob := { data : option string; mimeType : option string }.

Record Part := { inlineData : option Blob; text : option string }.

#[global] Instance Blob_eq_dec : EqDecision Blob.
Proof. solve_decision. Defined.

#[global] Instance Part_eq_dec : EqDecision Part.
Proof. solve_decision. Defined.

Record Content := { parts : option (list Part); role : option string }.

Record LiveServerContent := {
  modelTurn : option Content;
  turnComplete : option bool;
  interrupted : option bool;
  generationComplete : option bool;
}.

Record FunctionCall := { fc_id : option string; fc_name : option string }.

Record LiveServerToolCall := { functionCalls : option (list FunctionCall) }.

Record LiveServerToolCallCancellation := { ids : option (list string) }.

Record SessionResumptionUpdate := { newHandle : option string; resumable : bool }.

Record GoAway := { timeLeft : Z; reason : option string }.

(** A property of an inbound message that the handler probes with [in]: the
    key may be absent, present with no object behind it, or present with a
    value. *)
Inductive Slot (A : Type) :=
| KeyAbsent
| KeyEmpty
| KeyValue (a : A).

Arguments KeyAbsent {A}.
Arguments KeyEmpty {A}.
Arguments KeyValue {A} a.

Record LiveServerMessage := {
  sessionResumptionUpdate : Slot SessionResumptionUpdate;
  goAway : option GoAway;
  setupComplete : option unit;
  toolCall : option LiveServerToolCall;
  toolCallCancellation : option LiveServerToolCallCancellation;
  serverContent : option LiveServerContent;
}.

Record SessionResumptionConfig := { handle : option string }.

(** [LiveConnectConfig]: the resumption entry, and the rest of the
    configuration kept as one opaque payload. *)
Record LiveConnectConfig := {
  sessionResumption : option SessionResumptionConfig;
  settings : string;
}.

Record CloseEvent := { code : Z; close_reason : string; wasClean : bool }.

Record ErrorEvent := { error_message : string }.

(** ** The event bus *)

Inductive LogMessage :=
| LogString (s : string)
| LogServerMessage (m : LiveServerMessage)
| LogSetupComplete
| LogToolCall (t : LiveServerToolCall)
| LogToolCallCancellation (c : LiveServerToolCallCancellation)
| LogServerContent (c : LiveServerContent)
| LogClientContent (turn : list Part) (complete : bool)
| LogToolResponse (responses : list string).

(** [StreamingLog] without its wall-clock [date]. *)
Record StreamingLog := { type : string; message : LogMessage }.

Inductive Event :=
| EvAudio (d : ArrayBuffer)
| EvClose (e : CloseEvent)
| EvContent (c : LiveServerContent)
| EvError (e : ErrorEvent)
| EvInterrupted
| EvLog (l : StreamingLog)
| EvOpen
| EvSetupComplete
| EvToolCall (t : LiveServerToolCall)
| EvToolCallCancellation (c : LiveServerToolCallCancellation)
| EvTurnComplete
| EvSessionResumptionUpdate (u : SessionResumptionUpdate)
| EvGoAway (g : GoAway)
| EvGenerationComplete.

(** ** The client and its environment *)

Definition Session := nat.
Definition TimerId := positive.

Record Client := {
  _sessionHandle : option string;
  _sessionResumable : bool;
  _reconnectAttempts : Z;
  _reconnectTimeout : option TimerId;
  _keepAliveInterval : option TimerId;
  _sessionStorage : gmap string string;
  _model : option string;
  config : option LiveConnectConfig;
  _status : Status;
  _session : option Session;
}.

(** Durable browser storage: its entries, and which of its accesses raise
    (quota, privacy mode). *)
Record LocalStorage := {
  entries : gmap string string;
  getItem_raises : bool;
  setItem_raises : bool;
  removeItem_raises : bool;
}.

Inductive TimerKind := ReconnectTick | HeartbeatTick.

Record Timer := { kind : TimerKind; delay : Q }.

(** One element of the [chunks] given to [sendRealtimeInput]. *)
Record MediaChunk := { chunk_mimeType : string; chunk_data : string }.

Inductive TransportCall :=
| LiveConnect (model : string) (cfg : LiveConnectConfig)
| SessionClose (s : Session)
| SendClientContent (s : Session) (turns : list (list Part)) (complete : bool)
| SendRealtimeInput (s : Session) (chunk : MediaChunk)
| SendToolResponse (s : Session) (responses : list string).

(** What surrounds the client: storage, the pending timers (timeouts and
    intervals share one pool of identifiers), the events emitted so far, the
    calls made on the transport, and the number of random draws taken. *)
Record Env := {
  localStorage : LocalStorage;
  timers : gmap TimerId Timer;
  nextTimer : TimerId;
  emitted : list Event;
  transport : list TransportCall;
  draws : nat;
  listening : bool;
}.

Record World := { this : Client; env : Env }.

Definition upd_this (f : Client -> Client) (w : World) : World :=
  {| this := f (this w); env := env w |}.

Definition upd_env (f : Env -> Env) (w : World) : World :=
  {| this := this w; env := f (env w) |}.

Definition set_sessionHandle (v : option string) (c : Client) : Client :=
  {| _sessionHandle := v; _sessionResumable := _sessionResumable c;
     _reconnectAttempts := _reconnectAttempts c;
     _reconnectTimeout := _reconnectTimeout c;
     _keepAliveInterval := _keepAliveInterval c; _sessionStorage := _sessionStorage c;
     _model := _model c; config := config c; _status := _status c;
     _session := _session c |}.
Definition set_sessionResumable (v : bool) (c : Client) : Client :=
  {| _sessionHandle := _sessionHandle c; _sessionResumable := v;
     _reconnectAttempts := _reconnectAttempts c;
     _reconnectTimeout := _reconnectTimeout c;
     _keepAliveInterval := _keepAliveInterval c; _sessionStorage := _sessionStorage c;
     _model := _model c; config := config c; _status := _status c;
     _session := _session c |}.
Definition set_reconnectAttempts (v : Z) (c : Client) : Client :=
  {| _sessionHandle := _sessionHandle c; _sessionResumable := _sessionResumable c;
     _reconnectAttempts := v; _reconnectTimeout := _reconnectTimeout c;
     _keepAliveInterval := _keepAliveInterval c; _sessionStorage := _sessionStorage c;
     _model := _model c; config := config c; _status := _status c;
     _session := _session c |}.
Definition set_reconnectTimeout (v : option TimerId) (c : Client) : Client :=
  {| _sessionHandle := _sessionHandle c; _sessionResumable := _sessionResumable c;
     _reconnectAttempts := _reconnectAttempts c; _reconnectTimeout := v;
     _keepAliveInterval := _keepAliveInterval c; _sessionStorage := _sessionStorage c;
     _model := _model c; config := config c; _status := _status c;
     _session := _session c |}.
Definition set_keepAliveInterval (v : option TimerId) (c : Client) : Client :=
  {| _sessionHandle := _sessionHandle c; _sessionResumable := _sessionResumable c;
     _reconnectAttempts := _reconnectAttempts c;
     _reconnectTimeout := _reconnectTimeout c; _keepAliveInterval := v;
     _sessionStorage := _sessionStorage c; _model := _model c; config := config c;
     _status := _status c; _session := _session c |}.
Definition set_sessionStorage (v : gmap string string) (c : Client) : Client :=
  {| _sessionHandle := _sessionHandle c; _sessionResumable := _sessionResumable c;
     _reconnectAttempts := _reconnectAttempts c;
     _reconnectTimeout := _reconnectTimeout c;
     _keepAliveInterval := _keepAliveInterval c; _sessionStorage := v;
     _model := _model c; config := config c; _status := _status c;
     _session := _session c |}.
Definition set_model (v : option string) (c : Client) : Client :=
  {| _sessionHandle := _sessionHandle c; _sessionResumable := _sessionResumable c;
     _reconnectAttempts := _reconnectAttempts c;
     _reconnectTimeout := _reconnectTimeout c;
     _keepAliveInterval := _keepAliveInterval c; _sessionStorage := _sessionStorage c;
     _model := v; config := config c; _status := _status c; _session := _session c |}.
Definition set_config (v : option LiveConnectConfig) (c : Client) : Client :=
  {| _sessionHandle := _sessionHandle c; _sessionResumable := _sessionResumable c;
     _reconnectAttempts := _reconnectAttempts c;
     _reconnectTimeout := _reconnectTimeout c;
     _keepAliveInterval := _keepAliveInterval c; _sessionStorage := _sessionStorage c;
     _model := _model c; config := v; _status := _status c; _session := _session c |}.
Definition set_status (v : Status) (c : Client) : Client :=
  {| _sessionHandle := _sessionHandle c; _sessionResumable := _sessionResumable c;
     _reconnectAttempts := _reconnectAttempts c;
     _reconnectTimeout := _reconnectTimeout c;
     _keepAliveInterval := _keepAliveInterval c; _sessionStorage := _sessionStorage c;
     _model := _model c; config := config c; _status := v; _session := _session c |}.
Definition set_session (v : option Session) (c : Client) : Client :=
  {| _sessionHandle := _sessionHandle c; _sessionResumable := _sessionResumable c;
     _reconnectAttempts := _reconnectAttempts c;
     _reconnectTimeout := _reconnectTimeout c;
     _keepAliveInterval := _keepAliveInterval c; _sessionStorage := _sessionStorage c;
     _model := _model c; config := config c; _status := _status c; _session := v |}.

Definition set_localStorage (v : LocalStorage) (c : Env) : Env :=
  {| localStorage := v; timers := timers c; nextTimer := nextTimer c;
     emitted := emitted c; transport := transport c; draws := draws c;
     listening := listening c |}.
Definition set_timers (v : gmap TimerId Timer) (c : Env) : Env :=
  {| localStorage := localStorage c; timers := v; nextTimer := nextTimer c;
     emitted := emitted c; transport := transport c; draws := draws c;
     listening := listening c |}.
Definition set_nextTimer (v : TimerId) (c : Env) : Env :=
  {| localStorage := localStorage c; timers := timers c; nextTimer := v;
     emitted := emitted c; transport := transport c; draws := draws c;
     listening := listening c |}.
Definition set_emitted (v : list Event) (c : Env) : Env :=
  {| localStorage := localStorage c; timers := timers c; nextTimer := nextTimer c;
     emitted := v; transport := transport c; draws := draws c;
     listening := listening c |}.
Definition set_transport (v : list TransportCall) (c : Env) : Env :=
  {| localStorage := localStorage c; timers := timers c; nextTimer := nextTimer c;
     emitted := emitted c; transport := v; draws := draws c;
     listening := listening c |}.
Definition set_draws (v : nat) (c : Env) : Env :=
  {| localStorage := localStorage c; timers := timers c; nextTimer := nextTimer c;
     emitted := emitted c; transport := transport c; draws := v;
     listening := listening c |}.
Definition set_listening (v : bool) (c : Env) : Env :=
  {| localStorage := localStorage c; timers := timers c; nextTimer := nextTimer c;
     emitted := emitted c; transport := transport c; draws := draws c;
     listening := v |}.

Definition set_entries (v : gmap string string) (l : LocalStorage) : LocalStorage :=
  {| entries := v; getItem_raises := getItem_raises l;
     setItem_raises := setItem_raises l; removeItem_raises := removeItem_raises l |}.

(** ** Computations: state passing with exceptions *)

Inductive Completion (A : Type) :=
| Normal (a : A)
| Throw (e : Thrown).

Arguments Normal {A} a.
Arguments Throw {A} e.

Definition M (A : Type) : Type := World -> World * Completion A.

Definition ret {A} (a : A) : M A := fun w => (w, Normal a).

Definition throw {A} (e : Thrown) : M A := fun w => (w, Throw e).

Definition bind {A B} (m : M A) (k : A -> M B) : M B :=
  fun w =>
    match m w with
    | (w', Normal a) => k a w'
    | (w', Throw e) => (w', Throw e)
    end.

(** [try { body } catch (error) { handler }]: the state reached when the
    exception was raised is the state the handler starts from. *)
Definition try_catch {A} (body : M A) (handler : Thrown -> M A) : M A :=
  fun w =>
    match body w with
    | (w', Normal a) => (w', Normal a)
    | (w', Throw e) => handler e w'
    end.

(** [try { body } finally { cleanup }] *)
Definition try_finally {A} (body : M A) (cleanup : M unit) : M A :=
  fun w =>
    match body w with
    | (w', r) =>
        match cleanup w' with
        | (w'', Normal _) => (w'', r)
        | (w'', Throw e) => (w'', Throw e)
        end
    end.

Declare Scope client_scope.
Delimit Scope client_scope with client.
Notation "x <- m ;; k" := (bind m (fun x => k))
  (at level 100, m at next level, right associativity) : client_scope.
Notation "m ;; k" := (bind m (fun _ => k))
  (at level 100, right associativity) : client_scope.
Local Open Scope client_scope.

Definition read {A} (f : Client -> A) : M A := fun w => (w, Normal (f (this w))).

Definition write (f : Client -> Client) : M unit := fun w => (upd_this f w, Normal tt).

Definition when (b : bool) (m : M unit) : M unit := if b then m else ret tt.

(** [forEach] over an array. *)
Fixpoint forEach {A} (l : list A) (f : A -> M unit) : M unit :=
  match l with
  | [] => ret tt
  | x :: l' => f x ;; forEach l' f
  end.

(** The state a call leaves behind, and how it completed. *)
Definition after {A} (m : M A) (w : World) : World := fst (m w).
Definition outcome {A} (m : M A) (w : World) : Completion A := snd (m w).

(** JavaScript truthiness of a [string | null] value: [null] and the empty
    string are falsy. *)
Definition truthy (s : option string) : bool :=
  match s with
  | Some EmptyString => false
  | Some _ => true
  | None => false
  end.

(** [a || b] on [string | null | undefined]. *)
Definition or_else (a b : option string) : option string :=
  if truthy a then a else b.

(** [a || null] *)
Definition or_null (a : option string) : option string :=
  if truthy a then a else None.

(** [String.prototype.includes] *)
Fixpoint includes (needle hay : string) : bool :=
  String.prefix needle hay
  || match hay with
     | EmptyString => false
     | String _ rest => includes needle rest
     end.

(** [Math.min] and [Math.round] on numbers, kept as rationals. *)
Definition Math_min (a b : Q) : Q := if Qle_bool a b then a else b.

Definition Math_round (x : Q) : Z := Qfloor (x + (1 # 2)).

(** [Math.pow(2, e)], also for a negative exponent. *)
Definition Math_pow2 (e : Z) : Q := Qpower 2 e.

(** ** Constants of the class *)

Definition MAX_RECONNECT_ATTEMPTS : Z := 5.

Definition RECONNECT_CODES : gset Z := {[ 1005; 1006; 1011; 1012; 1013; 1014 ]}.

Definition HEARTBEAT_INTERVAL : Q := 25000.
Definition RECONNECT_BASE_DELAY : Q := 1000.
Definition RECONNECT_MAX_DELAY : Q := 30000.

Definition HANDLE_KEY : string := "gemini_session_handle".

(** ** The policy: does a closure warrant a reconnect?

    [_shouldReconnectOnClose] is private and called from [onclose] alone,
    with the status the client had when the transport closed. *)

Definition _shouldReconnectOnClose (c : Client) (code : Z) (previousStatus : Status)
  : bool :=
  if bool_decide (previousStatus = connecting) then false
  else if bool_decide (code ∈ RECONNECT_CODES) then true
  else if (code =? 1000) || (code =? 1001) then false
  else truthy (_sessionHandle c) || (bool_decide (is_Some (config c)) && truthy (_model c)).

(** ** Parts of a content message *)

(** [p.inlineData && p.inlineData.mimeType?.startsWith("audio/")] *)
Definition isAudioPart (p : Part) : bool :=
  match inlineData p with
  | Some b =>
      match mimeType b with
      | Some t => String.prefix "audio/" t
      | None => false
      end
  | None => false
  end.

(** ** A concrete environment

    Stand-ins for what the client cannot see into, used where a property is
    exercised on a run: a decoder that rejects payloads with a character
    outside the transport alphabet, subscribers that never raise or that
    raise on every audio event, a constant random source, and a transport
    whose first open succeeds and whose later opens fail. *)

Definition sample_decode (s : string) : Completion ArrayBuffer :=
  if includes "!" s then Throw (ErrorObject "The string to be decoded is not correctly encoded.")
  else Normal (list_byte_of_string s).

Definition quiet_subscriber (e : Event) : option Thrown := None.

Definition audio_subscriber_raises (e : Event) : option Thrown :=
  match e with
  | EvAudio _ => Some (ErrorObject "AudioContext was closed")
  | _ => None
  end.

Definition sample_random (n : nat) : Q := 1 # 2.

Definition opens_once (n : nat) (model : string) (cfg : LiveConnectConfig)
  : Completion Session :=
  match n with
  | O => Normal 1%nat
  | S _ => Throw (ErrorObject "network unreachable")
  end.


Definition session_ok (n : nat) (c : TransportCall) : option Thrown := None.

Definition empty_storage : LocalStorage :=
  {| entries := ∅; getItem_raises := false; setItem_raises := false;
     removeItem_raises := false |}.

Definition sample_config : LiveConnectConfig :=
  {| sessionResumption := None; settings := "{}" |}.

Definition sample_model : string := "models/gemini-2.0-flash-exp".

Definition resumption_message (h : option string) (r : bool) : LiveServerMessage :=
  {| sessionResumptionUpdate := KeyValue {| newHandle := h; resumable := r |};
     goAway := None; setupComplete := None; toolCall := None;
     toolCallCancellation := None; serverContent := None |}.

Definition content_message (ps : list Part) : LiveServerMessage :=
  {| sessionResumptionUpdate := KeyAbsent; goAway := None; setupComplete := None;
     toolCall := None; toolCallCancellation := None;
     serverContent :=
       Some {| modelTurn := Some {| parts := Some ps; role := Some "model" |};
               turnComplete := None; interrupted := None; generationComplete := None |} |}.

Definition closed_with (c : Z) : CloseEvent :=
  {| code := c; close_reason := ""; wasClean := false |}.

Definition audio_part (payload : option string) : Part :=
  {| inlineData := Some {| data := payload; mimeType := Some "audio/pcm;rate=24000" |};
     text := None |}.

Definition text_part (s : string) : Part := {| inlineData := None; text := Some s |}.

(** ** The methods of the client *)

Section GenAILiveClient.

(** [base64ToArrayBuffer] of lib/utils.ts, taken as a parameter: it decodes
    a payload into bytes or raises on a malformed one. *)
Variable base64ToArrayBuffer : string -> Completion ArrayBuffer.

(** The subscribers of the typed events: a dispatch may raise. *)
Variable subscriber : Event -> option Thrown.

(** The random source: the n-th value [Math.random()] returns. *)
Variable Math_random : nat -> Q.

(** The transport: what the n-th call made on it answers. *)
Variable live_connect : nat -> string -> LiveConnectConfig -> Completion Session.
Variable session_call : nat -> TransportCall -> option Thrown.

(** *** The event bus, storage, timers, transport *)

(** [this.emit(...)]: the event is dispatched to its subscribers, one of
    which may raise. The [log] channel is the reporting path of every
    handler below and its subscribers are taken not to raise. A subscriber
    does not call back into the client from inside the dispatch: what it
    does to the client is an operation of its own in a run, after the
    handler that dispatched. Where a handler goes on after a dispatch, a
    property that depends on this says so. *)
Definition emit (e : Event) : M unit :=
  fun w =>
    let w' := upd_env (fun v => set_emitted (emitted v ++ [e]) v) w in
    match e with
    | EvLog _ => (w', Normal tt)
    | _ =>
        if listening (env w) then
          match subscriber e with
          | Some x => (w', Throw x)
          | None => (w', Normal tt)
          end
        else (w', Normal tt)
    end.

Definition log (type : string) (message : LogMessage) : M unit :=
  emit (EvLog {| type := type; message := message |}).

Definition storage_failure : Thrown := ErrorObject "The operation is insecure.".

Definition localStorage_getItem (k : string) : M (option string) :=
  fun w =>
    let ls := localStorage (env w) in
    if getItem_raises ls then (w, Throw storage_failure)
    else (w, Normal (entries ls !! k)).

Definition localStorage_setItem (k v : string) : M unit :=
  fun w =>
    let ls := localStorage (env w) in
    if setItem_raises ls then (w, Throw storage_failure)
    else (upd_env (set_localStorage (set_entries (<[k := v]> (entries ls)) ls)) w,
          Normal tt).

Definition localStorage_removeItem (k : string) : M unit :=
  fun w =>
    let ls := localStorage (env w) in
    if removeItem_raises ls then (w, Throw storage_failure)
    else (upd_env (set_localStorage (set_entries (delete k (entries ls)) ls)) w,
          Normal tt).

Definition arm (callback : TimerKind) (ms : Q) : M TimerId :=
  fun w =>
    let id := nextTimer (env w) in
    (upd_env (fun v =>
                set_nextTimer (Pos.succ id)
                  (set_timers (<[id := {| kind := callback; delay := ms |}]> (timers v)) v))
       w,
     Normal id).

Definition setTimeout := arm.
Definition setInterval := arm.

(** [clearTimeout] and [clearInterval] cancel whatever timer carries the
    identifier. *)
Definition clearTimeout (id : TimerId) : M unit :=
  fun w => (upd_env (fun v => set_timers (delete id (timers v)) v) w, Normal tt).

Definition clearInterval := clearTimeout.

Definition Math_random_draw : M Q :=
  fun w =>
    (upd_env (fun v => set_draws (S (draws v)) v) w,
     Normal (Math_random (draws (env w)))).

(** [await this.client.live.connect(...)] when the transport settles the
    open before anything else happens: the call is recorded and the
    transport answers with a session or raises. The call and its answer
    apart are [client_live_open] and [settled] below. *)
Definition client_live_connect (model : string) (cfg : LiveConnectConfig) : M Session :=
  fun w =>
    let n := length (transport (env w)) in
    (upd_env (fun v => set_transport (transport v ++ [LiveConnect model cfg]) v) w,
     live_connect n model cfg).

(** A method call on the open session. *)
Definition session_invoke (c : TransportCall) : M unit :=
  fun w =>
    let n := length (transport (env w)) in
    let w' := upd_env (fun v => set_transport (transport v ++ [c]) v) w in
    match session_call n c with
    | Some x => (w', Throw x)
    | None => (w', Normal tt)
    end.

(** *** The handle store *)

Definition _getSessionHandle : M (option string) :=
  try_catch
    (durable <- localStorage_getItem HANDLE_KEY ;;
     memory <- read (fun c => _sessionStorage c !! HANDLE_KEY) ;;
     ret (or_null (or_else durable memory)))
    (fun _ =>
       memory <- read (fun c => _sessionStorage c !! HANDLE_KEY) ;;
       ret (or_null memory)).

Definition memory_set (h : string) : M unit :=
  write (fun c => set_sessionStorage (<[HANDLE_KEY := h]> (_sessionStorage c)) c).

Definition memory_delete : M unit :=
  write (fun c => set_sessionStorage (delete HANDLE_KEY (_sessionStorage c)) c).

Definition _setSessionHandle (h : option string) : M unit :=
  write (set_sessionHandle h) ;;
  try_catch
    (match h with
     | Some s =>
         if truthy h then localStorage_setItem HANDLE_KEY s ;; memory_set s
         else localStorage_removeItem HANDLE_KEY ;; memory_delete
     | None => localStorage_removeItem HANDLE_KEY ;; memory_delete
     end)
    (fun _ =>
       match h with
       | Some s => if truthy h then memory_set s else memory_delete
       | None => memory_delete
       end).

(** *** Heartbeat *)

Definition _stopKeepAlive : M unit :=
  k <- read _keepAliveInterval ;;
  match k with
  | Some id => clearInterval id ;; write (set_keepAliveInterval None)
  | None => ret tt
  end.

Definition _startKeepAlive : M unit :=
  _stopKeepAlive ;;
  id <- setInterval HeartbeatTick HEARTBEAT_INTERVAL ;;
  write (set_keepAliveInterval (Some id)).

(** The callback of the heartbeat interval. *)
Definition keepAliveTick : M unit :=
  try_catch
    (st <- read _status ;;
     s <- read _session ;;
     match st, s with
     | connected, Some sess =>
         session_invoke (SendClientContent sess [] false) ;;
         log "client.keepalive" (LogString "Sent heartbeat")
     | _, _ => ret tt
     end)
    (fun error =>
       log "client.keepalive.error"
         (LogString ("Heartbeat failed: " +:+ errorText error)) ;;
       _stopKeepAlive).

(** *** connect *)

(** [{ ...this.config, sessionResumption: handle ? { handle } : undefined }] *)
Definition enhancedConfig (cfg : LiveConnectConfig) (h : option string)
  : LiveConnectConfig :=
  {| sessionResumption := if truthy h then Some {| handle := h |} else None;
     settings := settings cfg |}.

Definition connect (model : string) (cfg : LiveConnectConfig) (isReconnect : bool)
  : M bool :=
  st <- read _status ;;
  if bool_decide (st = connecting) || (bool_decide (st = connected) && negb isReconnect)
  then
    log "client.connect.warn" (LogString ("Already " +:+ status_text st)) ;;
    ret false
  else
    write (set_status connecting) ;;
    write (set_config (Some cfg)) ;;
    write (set_model (Some model)) ;;
    try_catch
      (h <- read _sessionHandle ;;
       log "client.connect"
         (LogString ("Connecting to " +:+ model +:+ " with session handle: "
                     +:+ default "none" (or_null h))) ;;
       sess <- client_live_connect model (enhancedConfig cfg h) ;;
       write (set_session (Some sess)) ;;
       ret true)
      (fun error =>
         write (set_status disconnected) ;;
         log "client.connect.error"
           (LogString ("Connection failed: " +:+ errorMessage error)) ;;
         when (negb isReconnect)
           (_setSessionHandle None ;; write (set_sessionResumable false)) ;;
         throw error).

(** *** The retry loop *)

(** [if (this._reconnectTimeout) { clearTimeout(...); this._reconnectTimeout = null; }] *)
Definition clearReconnectTimeout : M unit :=
  t <- read _reconnectTimeout ;;
  match t with
  | Some id => clearTimeout id ;; write (set_reconnectTimeout None)
  | None => ret tt
  end.

(** The branch taken once the attempt ceiling is reached. *)
Definition giveUp : M unit :=
  _setSessionHandle None ;;
  write (set_reconnectAttempts 0) ;;
  log "client.reconnect.failed" (LogString "Max reconnect attempts reached").

(** The [try] block of [_reconnect]. *)
Definition attemptReconnect : M unit :=
  m <- read _model ;;
  c <- read config ;;
  match m, c with
  | Some model, Some cfg =>
      if truthy m then
        connect model cfg true ;;
        write (set_reconnectAttempts 0)
      else ret tt
  | _, _ => ret tt
  end.

(** [Math.min(MAX_DELAY, BASE_DELAY * Math.pow(2, attempts - 1))] *)
Definition baseDelay (attempts : Z) : Q :=
  Math_min RECONNECT_MAX_DELAY (RECONNECT_BASE_DELAY * Math_pow2 (attempts - 1)).

(** The [catch] block of [_reconnect]: count the failure, draw the jitter,
    arm the retry timer. *)
Definition scheduleRetry (error : Thrown) : M unit :=
  write (fun c => set_reconnectAttempts (_reconnectAttempts c + 1) c) ;;
  k <- read _reconnectAttempts ;;
  r <- Math_random_draw ;;
  let jitter := (r * 1000)%Q in
  let delay := (baseDelay k + jitter)%Q in
  log "client.reconnect.next"
    (LogString ("Next attempt in " +:+ pretty (Math_round (delay / 1000)) +:+ "s")) ;;
  id <- setTimeout ReconnectTick delay ;;
  write (set_reconnectTimeout (Some id)).

Definition _reconnect : M unit :=
  st <- read _status ;;
  if bool_decide (st = connected) then ret tt
  else
    n <- read _reconnectAttempts ;;
    log "client.reconnect"
      (LogString ("Attempting reconnect (" +:+ pretty (n + 1) +:+ "/"
                  +:+ pretty MAX_RECONNECT_ATTEMPTS +:+ ")")) ;;
    clearReconnectTimeout ;;
    if MAX_RECONNECT_ATTEMPTS <=? n then giveUp
    else try_catch attemptReconnect scheduleRetry.

(** *** disconnect *)

Definition programmatic_disconnect : CloseEvent :=
  {| code := 1000; close_reason := "Client initiated disconnect"; wasClean := false |}.

Definition disconnect : M bool :=
  log "client.disconnect" (LogString "Disconnect called") ;;
  _stopKeepAlive ;;
  clearReconnectTimeout ;;
  s <- read _session ;;
  match s with
  | Some sess =>
      try_finally
        (try_catch
           (session_invoke (SessionClose sess) ;;
            log "client.disconnect" (LogString "Session closed"))
           (fun error =>
              log "client.disconnect.error"
                (LogString ("Error during session close: " +:+ errorMessage error))))
        (write (set_session None))
  | None => ret tt
  end ;;
  st <- read _status ;;
  when (negb (bool_decide (st = disconnected)))
    (write (set_status disconnected) ;; emit (EvClose programmatic_disconnect)) ;;
  ret true.

(** *** Transport callbacks *)

Definition onopen : M unit :=
  write (set_status connected) ;;
  write (set_reconnectAttempts 0) ;;
  _startKeepAlive ;;
  log "client.open" (LogString "Connection opened successfully") ;;
  emit EvOpen.

Definition onerror (e : ErrorEvent) : M unit :=
  log "server.error" (LogString ("WebSocket error: " +:+ error_message e)) ;;
  emit (EvError e).

Definition quote : string := String (ascii_of_nat 34) EmptyString.

Definition bool_text (b : bool) : string := if b then "true" else "false".

Definition onclose (e : CloseEvent) : M unit :=
  _stopKeepAlive ;;
  previousStatus <- read _status ;;
  write (set_status disconnected) ;;
  log "server.close"
    (LogString ("Connection closed. Code: " +:+ pretty (code e) +:+ ", Reason: "
                +:+ quote
                +:+ (if bool_decide (close_reason e = "") then "No reason"
                     else close_reason e)
                +:+ quote +:+ ", WasClean: " +:+ bool_text (wasClean e))) ;;
  emit (EvClose e) ;;
  shouldReconnect <- read (fun c => _shouldReconnectOnClose c (code e) previousStatus) ;;
  h <- read _sessionHandle ;;
  c <- read config ;;
  if shouldReconnect && (truthy h || bool_decide (is_Some c)) then
    log "client.reconnect.trigger"
      (LogString ("Attempting reconnection after closure (code: " +:+ pretty (code e)
                  +:+ ")")) ;;
    _reconnect
  else if (code e =? 1000) || (code e =? 1001) then
    _setSessionHandle None ;;
    write (set_sessionResumable false) ;;
    log "client.session.clear" (LogString "Session cleared after normal closure")
  else ret tt.

(** *** The message demultiplexer *)

(** The call of [base64ToArrayBuffer]. *)
Definition decode (d : string) : M ArrayBuffer := fun w => (w, base64ToArrayBuffer d).

(** One element of [audioParts.forEach]. *)
Definition processAudioPart (part : Part) : M unit :=
  match inlineData part with
  | Some b =>
      match data b with
      | Some d =>
          if truthy (Some d) then
            try_catch
              (buf <- decode d ;;
               emit (EvAudio buf) ;;
               log "server.audio"
                 (LogString ("Received audio (" +:+ pretty (length buf) +:+ " bytes)")))
              (fun e =>
                 log "server.audio.error"
                   (LogString ("Failed to process audio: " +:+ errorText e)))
          else ret tt
      | None => ret tt
      end
  | None => ret tt
  end.

(** The body of [if (serverContent.modelTurn?.parts)]. *)
Definition contentToEmit (otherParts : list Part) : LiveServerContent :=
  {| modelTurn := Some {| parts := Some otherParts; role := None |};
     turnComplete := None; interrupted := None; generationComplete := None |}.

(** [if (otherParts.length > 0) { ... }] *)
Definition emitOtherParts (otherParts : list Part) : M unit :=
  if (0 <? length otherParts)%nat then
    emit (EvContent (contentToEmit otherParts)) ;;
    log "server.content.modelTurn" (LogServerContent (contentToEmit otherParts))
  else ret tt.

Definition processParts (parts : list Part) : M unit :=
  let audioParts := List.filter isAudioPart parts in
  let otherParts := list_difference parts audioParts in
  forEach audioParts processAudioPart ;;
  emitOtherParts otherParts.

Definition processServerContent (serverContent : LiveServerContent) : M unit :=
  match interrupted serverContent with
  | Some b =>
      log "server.content.interrupted" (LogString ("Interrupted: " +:+ bool_text b)) ;;
      emit EvInterrupted
  | None => ret tt
  end ;;
  match turnComplete serverContent with
  | Some b =>
      log "server.content.turnComplete" (LogString ("Turn complete: " +:+ bool_text b)) ;;
      emit EvTurnComplete
  | None => ret tt
  end ;;
  match generationComplete serverContent with
  | Some true =>
      log "server.content.generationComplete" (LogString "Generation complete") ;;
      emit EvGenerationComplete
  | _ => ret tt
  end ;;
  match modelTurn serverContent with
  | Some turn =>
      match parts turn with
      | Some ps => processParts ps
      | None => ret tt
      end
  | None => ret tt
  end.

(** The [if (resumable && newHandle) ... else ...] of the update. *)
Definition applyResumptionUpdate (update : SessionResumptionUpdate) : M unit :=
  if resumable update && truthy (newHandle update) then
    h <- read _sessionHandle ;;
    when (negb (bool_decide (h = newHandle update)))
      (_setSessionHandle (newHandle update) ;;
       log "client.sessionUpdate"
         (LogString ("New session handle saved: "
                     +:+ substring 0 20 (default "" (newHandle update))
                     +:+ "... (resumable)"))) ;;
    write (set_sessionResumable true)
  else
    _setSessionHandle None ;;
    write (set_sessionResumable false) ;;
    log "client.sessionUpdate" (LogString "Session not resumable").

Definition processResumptionUpdate (update : SessionResumptionUpdate) : M unit :=
  applyResumptionUpdate update ;;
  emit (EvSessionResumptionUpdate update).

Definition destructure_failure : Thrown :=
  ErrorObject "Cannot destructure property 'newHandle' of 'update' as it is undefined.".

(** What [onmessage] does once past the session-resumption update: go-away,
    setup-complete, then a tool call, a cancellation or content. *)
Definition dispatch (message : LiveServerMessage) : M unit :=
  match goAway message with
  | Some g =>
      log "server.goAway"
        (LogString ("Connection will terminate in " +:+ pretty (timeLeft g) +:+ "ms")) ;;
      emit (EvGoAway g)
  | None => ret tt
  end ;;
  match setupComplete message with
  | Some _ => log "server.setupComplete" LogSetupComplete ;; emit EvSetupComplete
  | None => ret tt
  end ;;
  match toolCall message with
  | Some t => log "server.toolCall" (LogToolCall t) ;; emit (EvToolCall t)
  | None =>
      match toolCallCancellation message with
      | Some c =>
          log "server.toolCallCancellation" (LogToolCallCancellation c) ;;
          emit (EvToolCallCancellation c)
      | None =>
          match serverContent message with
          | Some sc => processServerContent sc
          | None => ret tt
          end
      end
  end.

(** The [try] block of [onmessage]. *)
Definition onmessage_body (message : LiveServerMessage) : M unit :=
  log "server.message.raw" (LogServerMessage message) ;;
  match sessionResumptionUpdate message with
  | KeyAbsent => ret tt
  | KeyEmpty => throw destructure_failure
  | KeyValue update => processResumptionUpdate update
  end ;;
  dispatch message.

Definition onmessage (message : LiveServerMessage) : M unit :=
  try_catch (onmessage_body message)
    (fun error =>
       log "server.message.error"
         (LogString ("Error processing message: " +:+ errorMessage error))).

(** *** The rest of the public surface *)

Definition clearSession : M unit :=
  _setSessionHandle None ;;
  write (set_sessionResumable false) ;;
  log "client.session.clear" (LogString "Session handle cleared manually").

Definition forceReconnect : M unit :=
  st <- read _status ;;
  s <- read _session ;;
  match st, s with
  | connected, Some sess =>
      log "client.forceReconnect" (LogString "Forcing reconnection") ;;
      session_invoke (SessionClose sess)
  | _, _ => ret tt
  end.

Definition removeAllListeners : M unit :=
  fun w => (upd_env (set_listening false) w, Normal tt).

Definition destroy : M unit :=
  disconnect ;;
  removeAllListeners ;;
  write (set_sessionStorage ∅).

Record SessionInfo := {
  info_handle : option string;
  info_resumable : bool;
  info_status : Status;
  info_reconnectAttempts : Z;
}.

Definition getSessionInfo : M SessionInfo :=
  read (fun c =>
          {| info_handle := _sessionHandle c; info_resumable := _sessionResumable c;
             info_status := _status c; info_reconnectAttempts := _reconnectAttempts c |}).

(** The constructor: every field at its initializer, the handle read back
    from the store. *)
Definition blank : Client :=
  {| _sessionHandle := None; _sessionResumable := false; _reconnectAttempts := 0;
     _reconnectTimeout := None; _keepAliveInterval := None; _sessionStorage := ∅;
     _model := None; config := None; _status := disconnected; _session := None |}.

Definition constructor (ls : LocalStorage) : World :=
  let w0 :=
    {| this := blank;
       env := {| localStorage := ls; timers := ∅; nextTimer := 1%positive;
                 emitted := []; transport := []; draws := 0%nat; listening := true |} |} in
  match try_catch _getSessionHandle (fun _ => ret None) w0 with
  | (w1, Normal h) => upd_this (set_sessionHandle h) w1
  | (w1, Throw _) => w1
  end.

(** *** Sending *)

(** The [for] loop of [sendRealtimeInput], with its two flags. *)
Fixpoint sendChunks (sess : Session) (chunks : list MediaChunk) (hasAudio hasVideo : bool)
  : M (bool * bool) :=
  match chunks with
  | [] => ret (hasAudio, hasVideo)
  | chunk :: rest =>
      flags <-
        try_catch
          (session_invoke (SendRealtimeInput sess chunk) ;;
           ret (hasAudio || includes "audio" (chunk_mimeType chunk),
                hasVideo || includes "image" (chunk_mimeType chunk)
                || includes "video" (chunk_mimeType chunk)))
          (fun error =>
             log "client.sendRealtimeInput.exception"
               (LogString ("Error sending chunk: " +:+ errorMessage error)) ;;
             ret (hasAudio, hasVideo)) ;;
      sendChunks sess rest (fst flags) (snd flags)
  end.

Definition sendRealtimeInput (chunks : list MediaChunk) : M unit :=
  st <- read _status ;;
  s <- read _session ;;
  match s, st with
  | Some sess, connected =>
      flags <- sendChunks sess chunks false false ;;
      when (0 <? length chunks)%nat
        (let type :=
           match flags with
           | (true, true) => "audio + video"
           | (true, false) => "audio"
           | (false, true) => "video"
           | (false, false) => "data"
           end in
         log "client.realtimeInput.sent"
           (LogString ("Sent " +:+ pretty (length chunks) +:+ " " +:+ type
                       +:+ " chunk(s)")))
  | _, _ =>
      log "client.sendRealtimeInput.error"
        (LogString ("Cannot send realtime input. Status: " +:+ status_text st))
  end.

Definition sendToolResponse (functionResponses : option (list string)) : M unit :=
  st <- read _status ;;
  s <- read _session ;;
  match s, st with
  | Some sess, connected =>
      match functionResponses with
      | Some (r :: rs) =>
          try_catch
            (session_invoke (SendToolResponse sess (r :: rs)) ;;
             log "client.toolResponse.sent" (LogToolResponse (r :: rs)))
            (fun error =>
               log "client.sendToolResponse.exception"
                 (LogString ("Error sending tool response: " +:+ errorMessage error)))
      | _ => log "client.sendToolResponse.warn" (LogString "No function responses provided")
      end
  | _, _ =>
      log "client.sendToolResponse.error"
        (LogString ("Cannot send tool response. Status: " +:+ status_text st))
  end.

Definition send (partsArray : list Part) (turnComplete : bool) : M unit :=
  st <- read _status ;;
  s <- read _session ;;
  match s, st with
  | Some sess, connected =>
      if (length partsArray =? 0)%nat && negb turnComplete then
        log "client.send.warn"
          (LogString "Empty content with turnComplete=false. Nothing sent.")
      else
        try_catch
          (session_invoke (SendClientContent sess [partsArray] turnComplete) ;;
           log "client.send.sent" (LogClientContent partsArray turnComplete))
          (fun error =>
             log "client.send.exception"
               (LogString ("Error sending content: " +:+ errorMessage error)))
  | _, _ =>
      log "client.send.error"
        (LogString ("Cannot send content. Status: " +:+ status_text st))
  end.

(** ** Runs of the client *)

(** What can happen to a client: a call on its public surface, a callback
    from the transport, or a timer coming due. *)
Inductive Op :=
| Connect (model : string) (cfg : LiveConnectConfig) (isReconnect : bool)
| Disconnect
| OnOpen
| OnError (e : ErrorEvent)
| OnClose (e : CloseEvent)
| OnMessage (m : LiveServerMessage)
| TimerDue (id : TimerId)
| SendRealtime (chunks : list MediaChunk)
| SendTool (responses : option (list string))
| Send (turn : list Part) (complete : bool)
| ForceReconnect
| ClearSession
| Destroy.

Definition discard {A} (m : M A) : M unit :=
  fun w => match m w with (w', Normal _) => (w', Normal tt) | (w', Throw e) => (w', Throw e) end.

(** A timer coming due runs its callback; a timeout is spent, an interval
    stays armed. *)
Definition timerDue (id : TimerId) : M unit :=
  fun w =>
    match timers (env w) !! id with
    | Some {| kind := ReconnectTick |} =>
        _reconnect (upd_env (fun v => set_timers (delete id (timers v)) v) w)
    | Some {| kind := HeartbeatTick |} => keepAliveTick w
    | None => (w, Normal tt)
    end.


Definition perform (o : Op) : M unit :=
  match o with
  | Connect model cfg isReconnect => discard (connect model cfg isReconnect)
  | Disconnect => discard disconnect
  | OnOpen => onopen
  | OnError e => onerror e
  | OnClose e => onclose e
  | OnMessage m => onmessage m
  | TimerDue id => timerDue id
  | SendRealtime chunks => sendRealtimeInput chunks
  | SendTool responses => sendToolResponse responses
  | Send turn complete => send turn complete
  | ForceReconnect => forceReconnect
  | ClearSession => clearSession
  | Destroy => destroy
  end.

(** The state after a sequence of operations, whatever each one returned
    or raised. *)
Definition run (ops : list Op) (w : World) : World :=
  fold_left (fun w o => after (perform o) w) ops w.

(** The states a run reaches from a freshly constructed client when every
    open is settled before the next operation. The states with opens in
    flight are those of [playable] below, which has these among them. *)
Inductive reachable : World -> Prop :=
| reachable_new (ls : LocalStorage) : reachable (constructor ls)
| reachable_step (w : World) (o : Op) : reachable w -> reachable (after (perform o) w).

(** ** Suspension at [await]

    [connect] and [_reconnect] are async functions. [connect] runs up to
    [await this.client.live.connect(...)] and is suspended there until the
    transport settles the promise; [_reconnect] runs up to
    [await this.connect(...)], which is the same point. While an open is in
    flight other calls, callbacks and timers run. [connect], [_reconnect],
    [onclose] and [timerDue] above are these functions in a run where the
    transport settles each open before anything else happens; the
    definitions below are the segments on either side of the suspension,
    and [act] interleaves them with everything else. *)

(** An open handed to the transport and not settled yet. *)
Record Open := {
  open_index : nat;
  open_model : string;
  open_config : LiveConnectConfig;
}.

(** The call [this.client.live.connect(...)] itself: it is recorded, and
    the promise it returns is pending. *)
Definition client_live_open (model : string) (cfg : LiveConnectConfig) : M Open :=
  fun w =>
    (upd_env (fun v => set_transport (transport v ++ [LiveConnect model cfg]) v) w,
     Normal {| open_index := length (transport (env w)); open_model := model;
               open_config := cfg |}).

(** [connect] up to its [await]: [None] when the call is turned away (and
    returns false), the pending open otherwise. *)
Definition connect_start (model : string) (cfg : LiveConnectConfig) (isReconnect : bool)
  : M (option Open) :=
  st <- read _status ;;
  if bool_decide (st = connecting) || (bool_decide (st = connected) && negb isReconnect)
  then
    log "client.connect.warn" (LogString ("Already " +:+ status_text st)) ;;
    ret None
  else
    write (set_status connecting) ;;
    write (set_config (Some cfg)) ;;
    write (set_model (Some model)) ;;
    h <- read _sessionHandle ;;
    log "client.connect"
      (LogString ("Connecting to " +:+ model +:+ " with session handle: "
                  +:+ default "none" (or_null h))) ;;
    o <- client_live_open model (enhancedConfig cfg h) ;;
    ret (Some o).

(** The promise settles: with a session, or with an error. *)
Definition settled (answer : Completion Session) : M Session := fun w => (w, answer).

(** [connect] from its [await] on: the assignment of the session, or the
    [catch] block. *)
Definition connect_settle (isReconnect : bool) (answer : Completion Session) : M bool :=
  try_catch
    (sess <- settled answer ;;
     write (set_session (Some sess)) ;;
     ret true)
    (fun error =>
       write (set_status disconnected) ;;
       log "client.connect.error"
         (LogString ("Connection failed: " +:+ errorMessage error)) ;;
       when (negb isReconnect)
         (_setSessionHandle None ;; write (set_sessionResumable false)) ;;
       throw error).

(** [_reconnect] up to its [await]. A [connect] that is turned away has
    returned already, and the counter is reset without waiting for the
    transport. *)
Definition _reconnect_start : M (option Open) :=
  st <- read _status ;;
  if bool_decide (st = connected) then ret None
  else
    n <- read _reconnectAttempts ;;
    log "client.reconnect"
      (LogString ("Attempting reconnect (" +:+ pretty (n + 1) +:+ "/"
                  +:+ pretty MAX_RECONNECT_ATTEMPTS +:+ ")")) ;;
    clearReconnectTimeout ;;
    if MAX_RECONNECT_ATTEMPTS <=? n then giveUp ;; ret None
    else
      m <- read _model ;;
      c <- read config ;;
      match m, c with
      | Some model, Some cfg =>
          if truthy m then
            o <- connect_start model cfg true ;;
            match o with
            | Some pending => ret (Some pending)
            | None => write (set_reconnectAttempts 0) ;; ret None
            end
          else ret None
      | _, _ => ret None
      end.

(** [_reconnect] from its [await] on: the rest of the [try] block, or the
    [catch] block. *)
Definition _reconnect_settle (answer : Completion Session) : M unit :=
  try_catch
    (connect_settle true answer ;;
     write (set_reconnectAttempts 0))
    scheduleRetry.

(** The open a function left in flight is settled before anything else
    happens, and the function runs on. *)
Definition settle_at_once (r : World * Completion (option Open)) : World * Completion unit :=
  match r with
  | (w, Normal (Some o)) =>
      _reconnect_settle (live_connect (open_index o) (open_model o) (open_config o)) w
  | (w, Normal None) => (w, Normal tt)
  | (w, Throw e) => (w, Throw e)
  end.

(** [onclose] past the dispatch of the closure: the decision, read off the
    client as the dispatch left it. *)
Definition onclose_decision (e : CloseEvent) (previousStatus : Status) : M (option Open) :=
  shouldReconnect <- read (fun c => _shouldReconnectOnClose c (code e) previousStatus) ;;
  h <- read _sessionHandle ;;
  c <- read config ;;
  if shouldReconnect && (truthy h || bool_decide (is_Some c)) then
    log "client.reconnect.trigger"
      (LogString ("Attempting reconnection after closure (code: " +:+ pretty (code e)
                  +:+ ")")) ;;
    _reconnect_start
  else if (code e =? 1000) || (code e =? 1001) then
    _setSessionHandle None ;;
    write (set_sessionResumable false) ;;
    log "client.session.clear" (LogString "Session cleared after normal closure") ;;
    ret None
  else ret None.

(** [onclose], which does not await the [_reconnect] it calls. *)
Definition onclose_start (e : CloseEvent) : M (option Open) :=
  _stopKeepAlive ;;
  previousStatus <- read _status ;;
  write (set_status disconnected) ;;
  log "server.close"
    (LogString ("Connection closed. Code: " +:+ pretty (code e) +:+ ", Reason: "
                +:+ quote
                +:+ (if bool_decide (close_reason e = "") then "No reason"
                     else close_reason e)
                +:+ quote +:+ ", WasClean: " +:+ bool_text (wasClean e))) ;;
  emit (EvClose e) ;;
  onclose_decision e previousStatus.

(** A timer coming due, up to the [await] of the [_reconnect] it calls. *)
Definition timerDue_start (id : TimerId) : M (option Open) :=
  fun w =>
    match timers (env w) !! id with
    | Some {| kind := ReconnectTick |} =>
        _reconnect_start (upd_env (fun v => set_timers (delete id (timers v)) v) w)
    | Some {| kind := HeartbeatTick |} =>
        match keepAliveTick w with
        | (w', Normal _) => (w', Normal None)
        | (w', Throw e) => (w', Throw e)
        end
    | None => (w, Normal None)
    end.

(** Who waits for an open in flight: a [connect] called from outside, or
    the [connect] inside [_reconnect]. *)
Inductive Waiter :=
| AwaitedByCaller (isReconnect : bool)
| AwaitedByReconnect.

(** The client together with the opens in flight. *)
Record Program := {
  world : World;
  awaiting : list (Open * Waiter);
}.

(** What happens next: a call or callback runs up to its suspension, or
    the transport settles one of the opens in flight, and the function
    suspended on it runs on. *)
Inductive Action :=
| Call (o : Op)
| Settle (k : nat).

Definition suspended (who : Waiter) (r : World * Completion (option Open)) (p : Program)
  : Program :=
  match r with
  | (w, Normal (Some o)) => {| world := w; awaiting := awaiting p ++ [(o, who)] |}
  | (w, _) => {| world := w; awaiting := awaiting p |}
  end.

Definition resume (who : Waiter) (answer : Completion Session) : M unit :=
  match who with
  | AwaitedByCaller isReconnect => discard (connect_settle isReconnect answer)
  | AwaitedByReconnect => _reconnect_settle answer
  end.

Definition act (a : Action) (p : Program) : Program :=
  match a with
  | Call (Connect model cfg isReconnect) =>
      suspended (AwaitedByCaller isReconnect) (connect_start model cfg isReconnect (world p)) p
  | Call (OnClose e) => suspended AwaitedByReconnect (onclose_start e (world p)) p
  | Call (TimerDue id) => suspended AwaitedByReconnect (timerDue_start id (world p)) p
  | Call o => {| world := after (perform o) (world p); awaiting := awaiting p |}
  | Settle k =>
      match awaiting p !! k with
      | Some (o, who) =>
          {| world :=
               after (resume who (live_connect (open_index o) (open_model o) (open_config o)))
                 (world p);
             awaiting := delete k (awaiting p) |}
      | None => p
      end
  end.

(** A freshly constructed client, nothing in flight. *)
Definition boot (ls : LocalStorage) : Program :=
  {| world := constructor ls; awaiting := [] |}.

Definition play (actions : list Action) (p : Program) : Program :=
  fold_left (fun p a => act a p) actions p.

(** The states of a program: those some interleaving reaches. *)
Inductive playable : Program -> Prop :=
| playable_boot (ls : LocalStorage) : playable (boot ls)
| playable_act (p : Program) (a : Action) : playable p -> playable (act a p).

(** ** The vocabulary of the properties

    Observations of the event bus and of the client, and the assertions the
    properties below are stated with. *)

(** The audio and content events among the events emitted. *)
Definition is_media (e : Event) : bool :=
  match e with
  | EvAudio _ | EvContent _ => true
  | _ => false
  end.

Definition media_events (l : list Event) : list Event := List.filter is_media l.

(** The payload of a part as the audio loop obtains it: present, non-empty
    and accepted by the decoder. *)
Definition audio_payload (part : Part) : option ArrayBuffer :=
  match inlineData part with
  | Some b =>
      match data b with
      | Some d =>
          if truthy (Some d) then
            match base64ToArrayBuffer d with
            | Normal buf => Some buf
            | Throw _ => None
            end
          else None
      | None => None
      end
  | None => None
  end.

Definition audio_event (part : Part) : list Event :=
  match audio_payload part with
  | Some buf => [EvAudio buf]
  | None => []
  end.

(** The session-resumption updates among the events emitted. *)
Definition resumption_event (e : Event) : list SessionResumptionUpdate :=
  match e with
  | EvSessionResumptionUpdate u => [u]
  | _ => []
  end.

Definition resumption_events (l : list Event) : list SessionResumptionUpdate :=
  flat_map resumption_event l.

(** [keeps f m]: the observation [f] of the world reads the same after [m]
    as before, however [m] completes. *)
Definition keeps {A B} (f : World -> B) (m : M A) : Prop :=
  forall w, f (after m w) = f w.

(** The handle, its flag and both of its stores. *)
Definition handle_store (w : World)
  : option string * bool * gmap string string * LocalStorage :=
  (_sessionHandle (this w), _sessionResumable (this w), _sessionStorage (this w),
   localStorage (env w)).


(** The state in which [_reconnect] takes its decision: logged, and with the
    previous retry timer cancelled. *)
Definition prepared (w : World) : World :=
  after clearReconnectTimeout
    (after (log "client.reconnect"
              (LogString ("Attempting reconnect (" +:+ pretty (_reconnectAttempts (this w) + 1)
                          +:+ "/" +:+ pretty MAX_RECONNECT_ATTEMPTS +:+ ")"))) w).



(** The three sending operations of the public surface. *)
Definition is_send (o : Op) : bool :=
  match o with
  | SendRealtime _ | SendTool _ | Send _ _ => true
  | _ => false
  end.

(** Everything but the event bus and the transport log. *)
Definition off_the_wire (w : World)
  : Client * gmap TimerId Timer * TimerId * LocalStorage * nat * bool :=
  (this w, timers (env w), nextTimer (env w), localStorage (env w), draws (env w),
   listening (env w)).

(** [onclose] up to its decision: the heartbeat stopped, the status
    [disconnected], the closure logged and dispatched. *)
Definition closed (e : CloseEvent) (w : World) : World :=
  after (emit (EvClose e))
    (after (log "server.close"
              (LogString ("Connection closed. Code: " +:+ pretty (code e) +:+ ", Reason: "
                          +:+ quote
                          +:+ (if bool_decide (close_reason e = "") then "No reason"
                               else close_reason e)
                          +:+ quote +:+ ", WasClean: " +:+ bool_text (wasClean e))))
       (upd_this (set_status disconnected) (after _stopKeepAlive w))).


(** What [connect] retains for the retry loop to replay. *)
Definition retained (w : World) : option string * option LiveConnectConfig :=
  (_model (this w), config (this w)).

Definition is_connect (o : Op) : bool :=
  match o with
  | Connect _ _ _ => true
  | _ => false
  end.

(** [m] maintains the assertion [P], however it completes. *)
Definition maintains {A} (P : World -> Prop) (m : M A) : Prop :=
  forall w, P w -> P (after m w).

(** The heartbeat interval the client holds, and the timers pending. *)
Definition heartbeat_state (w : World) : option TimerId * gmap TimerId Timer :=
  (_keepAliveInterval (this w), timers (env w)).

(** The invariant of the heartbeat: every pending heartbeat is the interval
    the client holds in [_keepAliveInterval], and runs at the heartbeat
    period. *)
Definition heartbeat_inv (w : World) : Prop :=
  forall id x,
    timers (env w) !! id = Some x -> kind x = HeartbeatTick ->
    _keepAliveInterval (this w) = Some id /\ delay x = HEARTBEAT_INTERVAL.



(** The typed events among the events emitted: everything but the log. *)
Definition is_typed (e : Event) : bool :=
  match e with
  | EvLog _ => false
  | _ => true
  end.

Definition typed_events (l : list Event) : list Event := List.filter is_typed l.

(** The events that report model output or withdraw a tool call. *)
Definition is_output (e : Event) : bool :=
  match e with
  | EvAudio _ | EvContent _ | EvInterrupted | EvTurnComplete | EvGenerationComplete => true
  | _ => false
  end.

Definition output_events (l : list Event) : list Event := List.filter is_output l.

Definition cancellation_events (l : list Event) : list Event :=
  List.filter (fun e => match e with EvToolCallCancellation _ => true | _ => false end) l.

(** The typed events of a server content, in the order [onmessage] emits
    them. *)
Definition content_events (sc : LiveServerContent) : list Event :=
  match interrupted sc with
  | Some _ => [EvInterrupted]
  | None => []
  end
  ++ match turnComplete sc with
     | Some _ => [EvTurnComplete]
     | None => []
     end
  ++ match generationComplete sc with
     | Some true => [EvGenerationComplete]
     | _ => []
     end
  ++ match modelTurn sc with
     | Some turn =>
         match parts turn with
         | Some ps =>
             flat_map audio_event (List.filter isAudioPart ps)
             ++ match List.filter (fun p => negb (isAudioPart p)) ps with
                | [] => []
                | p :: rest => [EvContent (contentToEmit (p :: rest))]
                end
         | None => []
         end
     | None => []
     end.

(** The typed events of a message past its session-resumption update. *)
Definition dispatch_events (m : LiveServerMessage) : list Event :=
  match goAway m with
  | Some g => [EvGoAway g]
  | None => []
  end
  ++ match setupComplete m with
     | Some _ => [EvSetupComplete]
     | None => []
     end
  ++ match toolCall m with
     | Some t => [EvToolCall t]
     | None =>
         match toolCallCancellation m with
         | Some c => [EvToolCallCancellation c]
         | None =>
             match serverContent m with
             | Some sc => content_events sc
             | None => []
             end
         end
     end.

(** The typed events of a message, in the order [onmessage] emits them. *)
Definition message_events (m : LiveServerMessage) : list Event :=
  match sessionResumptionUpdate m with
  | KeyAbsent => dispatch_events m
  | KeyEmpty => []
  | KeyValue u => EvSessionResumptionUpdate u :: dispatch_events m
  end.

(** [m] completes normally and emits exactly the typed events [l]. *)
Definition yields {A} (m : M A) (l : list Event) : Prop :=
  forall w,
    (exists a, outcome m w = Normal a)
    /\ typed_events (emitted (env (after m w))) = typed_events (emitted (env w)) ++ l.

(** The typed events that [onmessage] dispatches for a content message
    before it reaches the parts. *)
Definition preceding_events (m : LiveServerMessage) (sc : LiveServerContent) : list Event :=
  match sessionResumptionUpdate m with
  | KeyValue u => [EvSessionResumptionUpdate u]
  | _ => []
  end
  ++ match goAway m with
     | Some g => [EvGoAway g]
     | None => []
     end
  ++ match setupComplete m with
     | Some _ => [EvSetupComplete]
     | None => []
     end
  ++ match interrupted sc with
     | Some _ => [EvInterrupted]
     | None => []
     end
  ++ match turnComplete sc with
     | Some _ => [EvTurnComplete]
     | None => []
     end
  ++ match generationComplete sc with
     | Some true => [EvGenerationComplete]
     | _ => []
     end.

(** [m] completes normally and emits no audio or content event. *)
Definition passes (m : M unit) : Prop :=
  forall w,
    outcome m w = Normal tt
    /\ media_events (emitted (env (after m w))) = media_events (emitted (env w)).

(** ** JavaScript truthiness and the transient codes *)

Lemma truthy_spec (s : option string) :
  truthy s = true <-> exists h, s = Some h /\ h <> "".
Proof.
  destruct s as [[ | a h] | ]; simpl; split; try discriminate.
  - intros (h & [= <-] & Hne). contradiction.
  - intros _. eexists. split; [ reflexivity | discriminate ].
  - intros _. reflexivity.
  - intros (h & Heq & _). discriminate.
Qed.

Lemma RECONNECT_CODES_has (code : Z) :
  bool_decide (code ∈ RECONNECT_CODES) = true
  <-> In code [1005; 1006; 1011; 1012; 1013; 1014].
Proof.
  rewrite bool_decide_eq_true. unfold RECONNECT_CODES. set_unfold. simpl.
  intuition auto.
Qed.

(** ** The reconnect policy *)

(** C1. The decision function returns false whenever the status before the
    closure was [connecting]; otherwise true for every code of the transient
    set 1005, 1006, 1011, 1012, 1013, 1014; otherwise false for 1000 and
    1001; and for every other code it returns true exactly when a (non-empty)
    handle is stored, or a config and a (non-empty) model are both retained. *)
Theorem shouldReconnectOnClose_decision (c : Client) (code : Z) (previousStatus : Status) :
  let r := _shouldReconnectOnClose c code previousStatus in
  (previousStatus = connecting -> r = false)
  /\ (previousStatus <> connecting ->
      In code [1005; 1006; 1011; 1012; 1013; 1014] -> r = true)
  /\ (previousStatus <> connecting -> code = 1000 \/ code = 1001 -> r = false)
  /\ (previousStatus <> connecting ->
      ~ In code [1005; 1006; 1011; 1012; 1013; 1014] -> code <> 1000 -> code <> 1001 ->
      (r = true <->
       (exists h, _sessionHandle c = Some h /\ h <> "")
       \/ ((exists cfg, config c = Some cfg) /\ (exists m, _model c = Some m /\ m <> "")))).
Proof.
  cbv zeta. unfold _shouldReconnectOnClose.
  repeat split.
  - intros ->. reflexivity.
  - intros Hs Hin. rewrite bool_decide_eq_false_2 by assumption.
    apply RECONNECT_CODES_has in Hin. rewrite Hin. reflexivity.
  - intros Hs Hc. rewrite bool_decide_eq_false_2 by assumption.
    destruct (bool_decide (code ∈ RECONNECT_CODES)) eqn:Hmem.
    + apply RECONNECT_CODES_has in Hmem. simpl in Hmem. lia.
    + destruct Hc as [-> | ->]; reflexivity.
  - rewrite bool_decide_eq_false_2 by assumption.
    destruct (bool_decide (code ∈ RECONNECT_CODES)) eqn:Hmem;
      [ apply RECONNECT_CODES_has in Hmem; contradiction | ].
    rewrite (proj2 (Z.eqb_neq code 1000)), (proj2 (Z.eqb_neq code 1001)) by assumption.
    simpl. rewrite orb_true_iff, andb_true_iff, bool_decide_eq_true.
    rewrite !truthy_spec. intros [Hh | [[cfg Hc] Hm]]; [ left | right ]; eauto.
  - rewrite bool_decide_eq_false_2 by assumption.
    destruct (bool_decide (code ∈ RECONNECT_CODES)) eqn:Hmem;
      [ apply RECONNECT_CODES_has in Hmem; contradiction | ].
    rewrite (proj2 (Z.eqb_neq code 1000)), (proj2 (Z.eqb_neq code 1001)) by assumption.
    simpl. rewrite orb_true_iff, andb_true_iff, bool_decide_eq_true.
    rewrite !truthy_spec. intros [Hh | [[cfg Hc] Hm]]; [ left | right ]; eauto.
Qed.

(** ** What a computation leaves alone *)

Lemma keeps_ret {A B} (f : World -> B) (a : A) : keeps f (ret a).
Proof. intros w. reflexivity. Qed.

Lemma keeps_throw {A B} (f : World -> B) (e : Thrown) : keeps f (@throw A e).
Proof. intros w. reflexivity. Qed.

Lemma keeps_read {A B} (f : World -> B) (g : Client -> A) : keeps f (read g).
Proof. intros w. reflexivity. Qed.

Lemma keeps_bind {A B C} (f : World -> C) (m : M A) (k : A -> M B) :
  keeps f m -> (forall a, keeps f (k a)) -> keeps f (bind m k).
Proof.
  intros Hm Hk w. specialize (Hm w). unfold after, bind in *.
  destruct (m w) as [w1 [a | e]]; simpl in *.
  - rewrite <- Hm. apply Hk.
  - exact Hm.
Qed.

Lemma keeps_try_catch {A B} (f : World -> B) (m : M A) (h : Thrown -> M A) :
  keeps f m -> (forall e, keeps f (h e)) -> keeps f (try_catch m h).
Proof.
  intros Hm Hh w. specialize (Hm w). unfold after, try_catch in *.
  destruct (m w) as [w1 [a | e]]; simpl in *.
  - exact Hm.
  - rewrite <- Hm. apply Hh.
Qed.

Lemma keeps_try_finally {A B} (f : World -> B) (m : M A) (c : M unit) :
  keeps f m -> keeps f c -> keeps f (try_finally m c).
Proof.
  intros Hm Hc w. specialize (Hm w). unfold after, try_finally in *.
  destruct (m w) as [w1 r]; simpl in *. specialize (Hc w1). unfold after in Hc.
  destruct (c w1) as [w2 [[] | e]]; simpl in *; congruence.
Qed.

Lemma keeps_discard {A B} (f : World -> B) (m : M A) : keeps f m -> keeps f (discard m).
Proof.
  intros Hm w. specialize (Hm w). unfold after, discard in *.
  destruct (m w) as [w1 [a | e]]; exact Hm.
Qed.

Lemma keeps_when {B} (f : World -> B) (b : bool) (m : M unit) :
  keeps f m -> keeps f (when b m).
Proof. intros Hm. destruct b; [ exact Hm | apply keeps_ret ]. Qed.

Lemma keeps_forEach {A B} (f : World -> B) (l : list A) (body : A -> M unit) :
  (forall x, keeps f (body x)) -> keeps f (forEach l body).
Proof.
  intros Hbody. induction l as [ | x l IH]; simpl.
  - apply keeps_ret.
  - apply keeps_bind; [ apply Hbody | intros _; exact IH ].
Qed.

Lemma keeps_write {B} (f : World -> B) (g : Client -> Client) :
  (forall w, f (upd_this g w) = f w) -> keeps f (write g).
Proof. intros H w. apply H. Qed.

(** The primitives, each under the condition that the observation does not
    read what the primitive writes. *)

Lemma keeps_emit {B} (f : World -> B) (e : Event) :
  (forall w, f (upd_env (fun v => set_emitted (emitted v ++ [e]) v) w) = f w) ->
  keeps f (emit e).
Proof.
  intros H w. unfold after, emit.
  destruct e; simpl; try apply H;
    destruct (listening (env w)); simpl; try apply H;
    match goal with |- context [subscriber ?x] => destruct (subscriber x) end;
    apply H.
Qed.

Lemma keeps_log {B} (f : World -> B) (t : string) (m : LogMessage) :
  (forall w,
      f (upd_env (fun v => set_emitted (emitted v ++ [EvLog {| type := t; message := m |}]) v) w)
      = f w) ->
  keeps f (log t m).
Proof. intros H. apply keeps_emit, H. Qed.

Lemma keeps_getItem {B} (f : World -> B) (k : string) : keeps f (localStorage_getItem k).
Proof.
  intros w. unfold after, localStorage_getItem.
  destruct (getItem_raises (localStorage (env w))); reflexivity.
Qed.

Lemma keeps_setItem {B} (f : World -> B) (k v : string) :
  (forall w g,
      f (upd_env (fun e => set_localStorage (set_entries g (localStorage e)) e) w) = f w) ->
  keeps f (localStorage_setItem k v).
Proof.
  intros H w. unfold after, localStorage_setItem.
  destruct (setItem_raises (localStorage (env w))); [ reflexivity | apply H ].
Qed.

Lemma keeps_removeItem {B} (f : World -> B) (k : string) :
  (forall w g,
      f (upd_env (fun e => set_localStorage (set_entries g (localStorage e)) e) w) = f w) ->
  keeps f (localStorage_removeItem k).
Proof.
  intros H w. unfold after, localStorage_removeItem.
  destruct (removeItem_raises (localStorage (env w))); [ reflexivity | apply H ].
Qed.

Lemma keeps_random {B} (f : World -> B) :
  (forall w n, f (upd_env (set_draws n) w) = f w) -> keeps f Math_random_draw.
Proof. intros H w. apply H. Qed.

Lemma keeps_live_connect {B} (f : World -> B) (model : string) (cfg : LiveConnectConfig) :
  (forall w l, f (upd_env (set_transport l) w) = f w) ->
  keeps f (client_live_connect model cfg).
Proof. intros H w. apply H. Qed.

Lemma keeps_session_invoke {B} (f : World -> B) (c : TransportCall) :
  (forall w l, f (upd_env (set_transport l) w) = f w) -> keeps f (session_invoke c).
Proof.
  intros H w. unfold after, session_invoke.
  destruct (session_call _ c); apply H.
Qed.

Lemma keeps_decode {B} (f : World -> B) (d : string) : keeps f (decode d).
Proof. intros w. reflexivity. Qed.

Lemma keeps_removeAllListeners {B} (f : World -> B) :
  (forall w b, f (upd_env (set_listening b) w) = f w) -> keeps f removeAllListeners.
Proof. intros H w. apply H. Qed.

Lemma keeps_arm {B} (f : World -> B) (k : TimerKind) (ms : Q) :
  (forall w g n, f (upd_env (fun v => set_nextTimer n (set_timers g v)) w) = f w) ->
  keeps f (arm k ms).
Proof. intros H w. apply H. Qed.

Lemma keeps_clearTimeout {B} (f : World -> B) (id : TimerId) :
  (forall w g, f (upd_env (set_timers g) w) = f w) -> keeps f (clearTimeout id).
Proof. intros H w. apply H. Qed.

Lemma keeps_sendChunks {B} (f : World -> B) (sess : Session) (chunks : list MediaChunk)
    (hasAudio hasVideo : bool) :
  (forall e w, f (upd_env (fun v => set_emitted (emitted v ++ [e]) v) w) = f w) ->
  (forall w l, f (upd_env (set_transport l) w) = f w) ->
  keeps f (sendChunks sess chunks hasAudio hasVideo).
Proof.
  intros Hemit Htransport. revert hasAudio hasVideo.
  induction chunks as [ | chunk rest IH]; intros hasAudio hasVideo; simpl.
  - apply keeps_ret.
  - apply keeps_bind; [ | intros flags; apply IH ].
    apply keeps_try_catch.
    + apply keeps_bind; [ apply keeps_session_invoke, Htransport | intros _; apply keeps_ret ].
    + intros error. apply keeps_bind; [ apply keeps_log, Hemit | intros _; apply keeps_ret ].
Qed.

Lemma keeps_timerDue {B} (f : World -> B) (id : TimerId) :
  (forall w g, f (upd_env (set_timers g) w) = f w) ->
  keeps f _reconnect -> keeps f keepAliveTick -> keeps f (timerDue id).
Proof.
  intros Htimers Hreconnect Htick w. unfold after, timerDue.
  destruct (timers (env w) !! id) as [[[ | ] ms] | ].
  - etransitivity; [ apply Hreconnect | apply Htimers ].
  - apply Htick.
  - reflexivity.
Qed.

(** Side conditions hold by computation, or because a list of updates read
    off the emitted events is unchanged by an event of another kind. *)
Ltac keeps_side :=
  intros;
  first
    [ reflexivity
    | cbv beta; simpl; unfold resumption_events; rewrite flat_map_app; simpl;
      rewrite app_nil_r; reflexivity ].

(** One step of a [keeps] derivation: a structural rule, a primitive whose
    side condition holds, or a case split on the scrutinee. *)
Ltac keeps_step :=
  first
    [ apply keeps_ret
    | apply keeps_throw
    | apply keeps_read
    | apply keeps_bind; [ | intros ? ]
    | apply keeps_try_catch; [ | intros ? ]
    | apply keeps_try_finally
    | apply keeps_discard
    | apply keeps_when
    | apply keeps_forEach; intros ?
    | apply keeps_getItem
    | apply keeps_decode
    | apply keeps_removeAllListeners; keeps_side
    | apply keeps_arm; keeps_side
    | apply keeps_clearTimeout; keeps_side
    | apply keeps_log; keeps_side
    | apply keeps_emit; keeps_side
    | apply keeps_setItem; keeps_side
    | apply keeps_removeItem; keeps_side
    | apply keeps_random; keeps_side
    | apply keeps_live_connect; keeps_side
    | apply keeps_session_invoke; keeps_side
    | apply keeps_write; keeps_side
    | apply keeps_sendChunks; keeps_side
    | apply keeps_timerDue; [ keeps_side | | ]
    | match goal with
      | |- keeps _ (match ?x with _ => _ end) => destruct x
      end ].

Ltac keeps_auto := repeat keeps_step.

(** A [keeps] derivation through a whole method of the client. *)
Ltac keeps_method :=
  unfold perform, destroy, disconnect, onopen, onerror, onclose, onmessage, onmessage_body,
    dispatch, processResumptionUpdate, applyResumptionUpdate, processServerContent,
    processParts, emitOtherParts, processAudioPart, clearSession, forceReconnect,
    sendRealtimeInput, sendToolResponse, send, _reconnect, clearReconnectTimeout, giveUp,
    attemptReconnect, scheduleRetry, connect, keepAliveTick,
    _startKeepAlive, _stopKeepAlive, _setSessionHandle, memory_set, memory_delete,
    setTimeout, setInterval, clearInterval;
  keeps_auto.

(** ** Running the primitives *)

Lemma log_run (t : string) (m : LogMessage) (w : World) :
  log t m w
  = (upd_env (fun v => set_emitted (emitted v ++ [EvLog {| type := t; message := m |}]) v) w,
     Normal tt).
Proof. reflexivity. Qed.

(** ** connect *)

(** C7. A [connect] made while the status is [connecting], or while it is
    [connected] without the reconnect flag, is rejected: it returns false
    (never true), makes no call on the transport, and leaves the client
    (model, config, handle, status and every other field), the store and the
    timers as they were; it only logs a warning. *)
Theorem connect_rejected_while_busy
    (model : string) (cfg : LiveConnectConfig) (isReconnect : bool) (w : World) :
  _status (this w) = connecting \/ (_status (this w) = connected /\ isReconnect = false) ->
  let w' := after (connect model cfg isReconnect) w in
  outcome (connect model cfg isReconnect) w = Normal false
  /\ transport (env w') = transport (env w)
  /\ this w' = this w
  /\ localStorage (env w') = localStorage (env w)
  /\ timers (env w') = timers (env w)
  /\ emitted (env w')
     = emitted (env w)
       ++ [EvLog {| type := "client.connect.warn";
                    message := LogString ("Already " +:+ status_text (_status (this w))) |}].
Proof.
  intros Hbusy. unfold after, outcome, connect, bind, read. simpl.
  destruct Hbusy as [-> | [-> ->]]; simpl; repeat split; reflexivity.
Qed.


(** ** clearSession *)

(** C10. From every state [clearSession] sets the stored handle to null and
    the resumability flag to false (dropping the handle's entry from the
    in-memory store, and from durable storage when it accepts the removal),
    logs one entry, and changes nothing else: status, transport session,
    model, config, attempt counter, both timer fields and the pending timers
    are as before, and no call is made on the transport. *)
Theorem clearSession_frame (w : World) :
  let w' := after clearSession w in
  outcome clearSession w = Normal tt
  /\ _sessionHandle (this w') = None
  /\ _sessionResumable (this w') = false
  /\ _sessionStorage (this w') = delete HANDLE_KEY (_sessionStorage (this w))
  /\ _status (this w') = _status (this w)
  /\ _session (this w') = _session (this w)
  /\ _model (this w') = _model (this w)
  /\ config (this w') = config (this w)
  /\ _reconnectAttempts (this w') = _reconnectAttempts (this w)
  /\ _reconnectTimeout (this w') = _reconnectTimeout (this w)
  /\ _keepAliveInterval (this w') = _keepAliveInterval (this w)
  /\ timers (env w') = timers (env w)
  /\ nextTimer (env w') = nextTimer (env w)
  /\ transport (env w') = transport (env w)
  /\ draws (env w') = draws (env w)
  /\ listening (env w') = listening (env w)
  /\ entries (localStorage (env w'))
     = (if removeItem_raises (localStorage (env w))
        then entries (localStorage (env w))
        else delete HANDLE_KEY (entries (localStorage (env w))))
  /\ emitted (env w')
     = emitted (env w)
       ++ [EvLog {| type := "client.session.clear";
                    message := LogString "Session handle cleared manually" |}].
Proof.
  unfold after, outcome, clearSession, _setSessionHandle, bind, try_catch, write,
    localStorage_removeItem, memory_delete, write.
  simpl. destruct (removeItem_raises (localStorage (env w))); simpl;
    repeat split; reflexivity.
Qed.

(** ** The message boundary *)

Lemma after_bind_normal {A B} (m : M A) (k : A -> M B) (w : World) (a : A) :
  outcome m w = Normal a -> bind m k w = k a (after m w).
Proof.
  unfold outcome, after, bind. destruct (m w) as [w1 r]; simpl. intros ->. reflexivity.
Qed.

Lemma try_catch_log_normal (body : M unit) (t : string) (msg : Thrown -> LogMessage)
    (w : World) :
  outcome (try_catch body (fun e => log t (msg e))) w = Normal tt.
Proof.
  unfold outcome, try_catch. destruct (body w) as [w1 [[] | e]]; reflexivity.
Qed.

Lemma try_catch_caught {A} (body : M A) (handler : Thrown -> M A) (w : World) (e : Thrown) :
  outcome body w = Throw e -> try_catch body handler w = handler e (after body w).
Proof.
  unfold outcome, after, try_catch. destruct (body w) as [w1 r]; simpl. intros ->.
  reflexivity.
Qed.

Lemma processAudioPart_normal (part : Part) (w : World) :
  outcome (processAudioPart part) w = Normal tt.
Proof.
  unfold processAudioPart.
  destruct (inlineData part) as [b | ]; [ | reflexivity ].
  destruct (data b) as [d | ]; [ | reflexivity ].
  destruct (truthy (Some d)); [ | reflexivity ].
  apply try_catch_log_normal.
Qed.

Lemma forEach_normal {A} (l : list A) (f : A -> M unit) :
  (forall x w, outcome (f x) w = Normal tt) ->
  forall w, outcome (forEach l f) w = Normal tt.
Proof.
  intros Hf. induction l as [ | x l IH]; intros w; simpl.
  - reflexivity.
  - unfold outcome. rewrite (after_bind_normal _ _ _ tt) by apply Hf. apply IH.
Qed.

Lemma forEach_app {A} (l1 l2 : list A) (f : A -> M unit) :
  (forall x w, outcome (f x) w = Normal tt) ->
  forall w, forEach (l1 ++ l2) f w = forEach l2 f (after (forEach l1 f) w).
Proof.
  intros Hf. induction l1 as [ | x l1 IH]; intros w; simpl.
  - reflexivity.
  - rewrite !(after_bind_normal _ _ _ tt) by apply Hf. rewrite IH.
    unfold after at 3. rewrite (after_bind_normal _ _ _ tt) by apply Hf. reflexivity.
Qed.

(** C4. The message handler never raises to its caller: whatever the
    message, the decoder and the subscribers of the typed events do, the
    call completes normally; an exception raised anywhere in the [try] block
    is caught at the message boundary and reported on the log. Inside the
    block the loop over the audio parts never raises either: a payload that
    fails to decode is reported on the log, the parts after it are still
    processed, and the remaining non-audio parts are still emitted. *)
Theorem onmessage_never_raises :
  (forall m w, outcome (onmessage m) w = Normal tt)
  /\ (forall m w e,
        outcome (onmessage_body m) w = Throw e ->
        after (onmessage m) w
        = after (log "server.message.error"
                   (LogString ("Error processing message: " +:+ errorMessage e)))
            (after (onmessage_body m) w))
  /\ (forall ps w, outcome (forEach ps processAudioPart) w = Normal tt)
  /\ (forall part b d e w,
        inlineData part = Some b -> data b = Some d -> d <> "" ->
        base64ToArrayBuffer d = Throw e ->
        after (processAudioPart part) w
        = after (log "server.audio.error"
                   (LogString ("Failed to process audio: " +:+ errorText e))) w)
  /\ (forall l1 l2 w,
        after (forEach (l1 ++ l2) processAudioPart) w
        = after (forEach l2 processAudioPart) (after (forEach l1 processAudioPart) w))
  /\ (forall ps w,
        after (processParts ps) w
        = after (emitOtherParts (list_difference ps (List.filter isAudioPart ps)))
            (after (forEach (List.filter isAudioPart ps) processAudioPart) w)).
Proof.
  split; [ | split; [ | split; [ | split; [ | split ] ] ] ].
  - intros m w. apply try_catch_log_normal.
  - intros m w e Hraise. unfold after at 1, onmessage.
    rewrite (try_catch_caught _ _ _ e) by exact Hraise. reflexivity.
  - intros ps w. apply forEach_normal, processAudioPart_normal.
  - intros part b d e w Hb Hd Hne Hdec. unfold processAudioPart.
    rewrite Hb, Hd. destruct d as [ | a d]; [ contradiction | ]. simpl.
    unfold after at 1, try_catch, bind, decode. rewrite Hdec. reflexivity.
  - intros l1 l2 w. unfold after at 1. rewrite forEach_app by apply processAudioPart_normal.
    reflexivity.
  - intros ps w. unfold after at 1, processParts.
    rewrite (after_bind_normal _ _ _ tt)
      by (apply forEach_normal, processAudioPart_normal).
    reflexivity.
Qed.

(** ** Audio and content *)

Lemma media_events_app (l1 l2 : list Event) :
  media_events (l1 ++ l2) = media_events l1 ++ media_events l2.
Proof. apply List.filter_app. Qed.

Lemma media_emit (e : Event) (w : World) :
  media_events (emitted (env (after (emit e) w)))
  = media_events (emitted (env w)) ++ (if is_media e then [e] else []).
Proof.
  assert (emitted (env (after (emit e) w)) = emitted (env w) ++ [e]) as ->.
  { unfold after, emit. destruct e; simpl; try reflexivity;
      destruct (listening (env w)); simpl; try reflexivity;
      match goal with |- context [subscriber ?x] => destruct (subscriber x) end;
      reflexivity. }
  rewrite media_events_app. simpl. destruct (is_media e); reflexivity.
Qed.

Lemma media_log (t : string) (m : LogMessage) (w : World) :
  media_events (emitted (env (after (log t m) w))) = media_events (emitted (env w)).
Proof. unfold log. rewrite media_emit. simpl. apply app_nil_r. Qed.

Lemma media_processAudioPart (part : Part) (w : World) :
  media_events (emitted (env (after (processAudioPart part) w)))
  = media_events (emitted (env w)) ++ audio_event part.
Proof.
  unfold processAudioPart, audio_event, audio_payload.
  destruct (inlineData part) as [b | ]; [ | symmetry; apply app_nil_r ].
  destruct (data b) as [d | ]; [ | symmetry; apply app_nil_r ].
  destruct (truthy (Some d)); [ | symmetry; apply app_nil_r ].
  unfold after, try_catch, bind, decode.
  destruct (base64ToArrayBuffer d) as [buf | x].
  - pose proof (media_emit (EvAudio buf) w) as Hemit. unfold after in Hemit.
    destruct (emit (EvAudio buf) w) as [w1 [[] | x]]; simpl in Hemit.
    + rewrite log_run. simpl. rewrite media_events_app, Hemit. simpl. apply app_nil_r.
    + etransitivity; [ apply (media_log "server.audio.error" _ w1) | exact Hemit ].
  - etransitivity; [ apply (media_log "server.audio.error" _ w) | ].
    symmetry. apply app_nil_r.
Qed.

Lemma media_forEach_audio (ps : list Part) (w : World) :
  media_events (emitted (env (after (forEach ps processAudioPart) w)))
  = media_events (emitted (env w)) ++ flat_map audio_event ps.
Proof.
  revert w. induction ps as [ | part ps IH]; intros w; simpl.
  - symmetry. apply app_nil_r.
  - unfold after. rewrite (after_bind_normal _ _ _ tt) by apply processAudioPart_normal.
    fold (after (forEach ps processAudioPart) (after (processAudioPart part) w)).
    rewrite IH, media_processAudioPart, <- app_assoc. reflexivity.
Qed.

Lemma media_emitOtherParts (others : list Part) (w : World) :
  media_events (emitted (env (after (emitOtherParts others) w)))
  = media_events (emitted (env w))
    ++ match others with
       | [] => []
       | _ :: _ => [EvContent (contentToEmit others)]
       end.
Proof.
  unfold emitOtherParts. destruct others as [ | p others]; simpl.
  - symmetry. apply app_nil_r.
  - pose proof (media_emit (EvContent (contentToEmit (p :: others))) w) as Hemit.
    unfold after, bind in *.
    destruct (emit (EvContent (contentToEmit (p :: others))) w) as [w1 [[] | x]];
      simpl in *; [ | exact Hemit ].
    etransitivity; [ apply (media_log _ _ w1) | exact Hemit ].
Qed.

(** [difference(parts, audioParts)] is the non-audio parts, in their order. *)
Lemma difference_audio (ps : list Part) :
  list_difference ps (List.filter isAudioPart ps)
  = List.filter (fun p => negb (isAudioPart p)) ps.
Proof.
  assert (forall l, (forall x, In x l -> In x ps) ->
            list_difference l (List.filter isAudioPart ps)
            = List.filter (fun p => negb (isAudioPart p)) l) as Hgen.
  { induction l as [ | x l IH]; intros Hsub; simpl; [ reflexivity | ].
    rewrite IH by (intros y Hy; apply Hsub; right; exact Hy).
    destruct (decide_rel elem_of x (List.filter isAudioPart ps)) as [Hin | Hnin].
    - apply list_elem_of_In, filter_In in Hin. destruct Hin as [_ ->]. reflexivity.
    - destruct (isAudioPart x) eqn:Haudio; [ | reflexivity ].
      exfalso. apply Hnin, list_elem_of_In, filter_In. split; [ | exact Haudio ].
      apply Hsub. left. reflexivity. }
  apply Hgen. auto.
Qed.

Lemma media_processParts (ps : list Part) (w : World) :
  media_events (emitted (env (after (processParts ps) w)))
  = media_events (emitted (env w))
    ++ flat_map audio_event (List.filter isAudioPart ps)
    ++ match List.filter (fun p => negb (isAudioPart p)) ps with
       | [] => []
       | _ :: _ =>
           [EvContent (contentToEmit (List.filter (fun p => negb (isAudioPart p)) ps))]
       end.
Proof.
  unfold processParts, after.
  rewrite (after_bind_normal _ _ _ tt) by (apply forEach_normal, processAudioPart_normal).
  fold (after (emitOtherParts (list_difference ps (List.filter isAudioPart ps)))
          (after (forEach (List.filter isAudioPart ps) processAudioPart) w)).
  rewrite media_emitOtherParts, media_forEach_audio, difference_audio, <- app_assoc.
  reflexivity.
Qed.

Lemma media_onmessage_content (ps : list Part) (w : World) :
  media_events (emitted (env (after (onmessage (content_message ps)) w)))
  = media_events (emitted (env (after (processParts ps)
                                  (after (log "server.message.raw"
                                            (LogServerMessage (content_message ps))) w)))).
Proof.
  unfold onmessage, onmessage_body, dispatch, processServerContent. simpl.
  unfold after at 1, try_catch, bind. rewrite log_run. simpl.
  unfold after at 1. simpl.
  destruct (processParts ps _) as [w2 [[] | e]]; simpl; [ reflexivity | ].
  rewrite media_events_app. simpl. apply app_nil_r.
Qed.


(** ** Session-resumption updates *)



Ltac run_store :=
  unfold after, outcome, applyResumptionUpdate, _setSessionHandle, bind, try_catch, when,
    read, write, ret, localStorage_setItem, localStorage_removeItem, memory_set,
    memory_delete, write;
  simpl.













(** ** The retry loop *)

Lemma reconnect_unfold (w : World) :
  _reconnect w
  = if bool_decide (_status (this w) = connected) then (w, Normal tt)
    else if MAX_RECONNECT_ATTEMPTS <=? _reconnectAttempts (this w) then giveUp (prepared w)
         else try_catch attemptReconnect scheduleRetry (prepared w).
Proof.
  unfold _reconnect, prepared, bind at 1, read at 1. simpl.
  destruct (bool_decide (_status (this w) = connected)); [ reflexivity | ].
  unfold bind at 1, read at 1. simpl. unfold bind at 1. rewrite log_run.
  unfold after at 2. simpl.
  unfold bind at 1, after, clearReconnectTimeout, bind, read, clearTimeout, write. simpl.
  destruct (_reconnectTimeout (this w));
    destruct (MAX_RECONNECT_ATTEMPTS <=? _reconnectAttempts (this w)); reflexivity.
Qed.

Lemma prepared_this (w : World) :
  _sessionHandle (this (prepared w)) = _sessionHandle (this w)
  /\ _sessionResumable (this (prepared w)) = _sessionResumable (this w)
  /\ _reconnectAttempts (this (prepared w)) = _reconnectAttempts (this w)
  /\ _reconnectTimeout (this (prepared w)) = None
  /\ _model (this (prepared w)) = _model (this w)
  /\ config (this (prepared w)) = config (this w)
  /\ _status (this (prepared w)) = _status (this w)
  /\ _session (this (prepared w)) = _session (this w).
Proof.
  unfold prepared, after, clearReconnectTimeout, bind, read, clearTimeout, write. simpl.
  destruct (_reconnectTimeout (this w)) eqn:Ht; simpl; repeat split;
    first [ reflexivity | exact Ht ].
Qed.

Lemma prepared_env (w : World) :
  timers (env (prepared w))
  = match _reconnectTimeout (this w) with
    | Some id => delete id (timers (env w))
    | None => timers (env w)
    end
  /\ nextTimer (env (prepared w)) = nextTimer (env w)
  /\ transport (env (prepared w)) = transport (env w)
  /\ draws (env (prepared w)) = draws (env w)
  /\ localStorage (env (prepared w)) = localStorage (env w).
Proof.
  unfold prepared, after, clearReconnectTimeout, bind, read, clearTimeout, write. simpl.
  destruct (_reconnectTimeout (this w)); simpl; repeat split; reflexivity.
Qed.






(** ** The freshly constructed client *)

Lemma constructor_this (ls : LocalStorage) :
  _sessionResumable (this (constructor ls)) = false
  /\ _reconnectAttempts (this (constructor ls)) = 0
  /\ _reconnectTimeout (this (constructor ls)) = None
  /\ _status (this (constructor ls)) = disconnected
  /\ timers (env (constructor ls)) = ∅.
Proof.
  unfold constructor, _getSessionHandle, try_catch, bind, localStorage_getItem, read, ret.
  simpl. destruct (getItem_raises ls); simpl; repeat split; reflexivity.
Qed.







(** ** The retry delay *)

(** Below the ceiling the exponential term is under the cap, with room for
    the jitter. *)
Lemma baseDelay_uncapped (n : Z) :
  1 <= n <= MAX_RECONNECT_ATTEMPTS ->
  (baseDelay n == 1000 * Qpower 2 (n - 1))%Q
  /\ (1000 * Qpower 2 (n - 1) + 1000 <= 30000)%Q.
Proof.
  unfold MAX_RECONNECT_ATTEMPTS. intros Hn.
  assert (n = 1 \/ n = 2 \/ n = 3 \/ n = 4 \/ n = 5) as Hcases by lia.
  destruct Hcases as [-> | [-> | [-> | [-> | ->]]]]; split; vm_compute;
    first [ reflexivity | discriminate ].
Qed.


Lemma run_reachable (ops : list Op) (w : World) : reachable w -> reachable (run ops w).
Proof.
  revert w. induction ops as [ | o ops IH]; intros w Hw; simpl.
  - exact Hw.
  - apply IH, reachable_step, Hw.
Qed.

(** ** The handle store *)

Lemma getSessionHandle_run (w : World) :
  _getSessionHandle w
  = (w,
     Normal
       (if getItem_raises (localStorage (env w))
        then or_null (_sessionStorage (this w) !! HANDLE_KEY)
        else or_null (or_else (entries (localStorage (env w)) !! HANDLE_KEY)
                        (_sessionStorage (this w) !! HANDLE_KEY)))).
Proof.
  unfold _getSessionHandle, try_catch, bind, localStorage_getItem, read, ret. simpl.
  destruct (getItem_raises (localStorage (env w))); reflexivity.
Qed.

Lemma getSessionHandle_after (w : World) : after _getSessionHandle w = w.
Proof. unfold after. rewrite getSessionHandle_run. reflexivity. Qed.

Lemma getSessionHandle_outcome (w : World) :
  outcome _getSessionHandle w
  = Normal
      (if getItem_raises (localStorage (env w))
       then or_null (_sessionStorage (this w) !! HANDLE_KEY)
       else or_null (or_else (entries (localStorage (env w)) !! HANDLE_KEY)
                       (_sessionStorage (this w) !! HANDLE_KEY))).
Proof. unfold outcome. rewrite getSessionHandle_run. reflexivity. Qed.

Lemma or_null_truthy (s : option string) : truthy s = true -> or_null s = s.
Proof. unfold or_null. intros ->. reflexivity. Qed.

Lemma or_null_falsy (s : option string) : truthy s = false -> or_null s = None.
Proof. unfold or_null. intros ->. reflexivity. Qed.

(** X1. Writing a non-empty handle never raises, sets the field, and always
    reaches the in-memory store, whether or not durable storage accepts the
    write. Reading the store back gives that handle, with one exception:
    when durable storage refuses the write but still answers reads and
    holds an older non-empty handle, the older handle is read back. *)
Theorem handle_write_read_back (h : string) (w : World) :
  h <> "" ->
  let w' := after (_setSessionHandle (Some h)) w in
  outcome (_setSessionHandle (Some h)) w = Normal tt
  /\ _sessionHandle (this w') = Some h
  /\ _sessionStorage (this w') !! HANDLE_KEY = Some h
  /\ after _getSessionHandle w' = w'
  /\ outcome _getSessionHandle w'
     = Normal
         (if getItem_raises (localStorage (env w)) then Some h
          else if setItem_raises (localStorage (env w))
               then (if truthy (entries (localStorage (env w)) !! HANDLE_KEY)
                     then entries (localStorage (env w)) !! HANDLE_KEY
                     else Some h)
               else Some h).
Proof.
  intros Hne. cbv zeta. destruct h as [ | a h]; [ contradiction | ].
  rewrite getSessionHandle_after, getSessionHandle_outcome.
  unfold after, outcome, _setSessionHandle, bind, try_catch, write, localStorage_setItem,
    memory_set, write.
  simpl.
  destruct (setItem_raises (localStorage (env w))) eqn:Hset; simpl;
    destruct (getItem_raises (localStorage (env w))) eqn:Hget; simpl;
    rewrite ?Hget, ?lookup_insert_eq; simpl;
    repeat split; try reflexivity.
  unfold or_else, or_null.
  destruct (truthy (entries (localStorage (env w)) !! HANDLE_KEY)) eqn:Hold; simpl;
    rewrite ?Hold; reflexivity.
Qed.

(** X2. Clearing the handle never raises, resets the field and empties the
    in-memory store. Reading the store back gives null, unless durable
    storage refuses the removal while still answering reads and holding a
    non-empty handle: then that handle is read back. *)
Theorem handle_clear_read_back (w : World) :
  let w' := after (_setSessionHandle None) w in
  outcome (_setSessionHandle None) w = Normal tt
  /\ _sessionHandle (this w') = None
  /\ _sessionStorage (this w') !! HANDLE_KEY = None
  /\ outcome _getSessionHandle w'
     = Normal
         (if getItem_raises (localStorage (env w)) then None
          else if removeItem_raises (localStorage (env w))
               then or_null (entries (localStorage (env w)) !! HANDLE_KEY)
               else None).
Proof.
  cbv zeta. rewrite getSessionHandle_outcome.
  unfold after, outcome, _setSessionHandle, bind, try_catch, write,
    localStorage_removeItem, memory_delete, write.
  simpl.
  destruct (removeItem_raises (localStorage (env w))) eqn:Hrem; simpl;
    destruct (getItem_raises (localStorage (env w))) eqn:Hget; simpl;
    rewrite ?Hget, ?lookup_delete_eq; simpl;
    repeat split; try reflexivity.
  unfold or_else, or_null.
  destruct (truthy (entries (localStorage (env w)) !! HANDLE_KEY)) eqn:Hold; simpl;
    rewrite ?Hold; reflexivity.
Qed.

(** ** disconnect and the heartbeat *)

Ltac run_handler :=
  unfold after, outcome, disconnect, keepAliveTick, clearReconnectTimeout, _stopKeepAlive,
    bind, read, write, ret, when, try_finally, try_catch, session_invoke, clearInterval,
    clearTimeout, log, emit;
  simpl.

(** What [disconnect] leaves behind, however it completes. *)
Lemma disconnect_fields (w : World) :
  let w' := after disconnect w in
  _status (this w') = disconnected
  /\ _session (this w') = None
  /\ _keepAliveInterval (this w') = None
  /\ _reconnectTimeout (this w') = None
  /\ timers (env w')
     = (let tm := match _keepAliveInterval (this w) with
                  | Some id => delete id (timers (env w))
                  | None => timers (env w)
                  end in
        match _reconnectTimeout (this w) with
        | Some id => delete id tm
        | None => tm
        end)
  /\ _sessionHandle (this w') = _sessionHandle (this w)
  /\ _sessionResumable (this w') = _sessionResumable (this w)
  /\ _reconnectAttempts (this w') = _reconnectAttempts (this w)
  /\ _model (this w') = _model (this w)
  /\ config (this w') = config (this w)
  /\ _sessionStorage (this w') = _sessionStorage (this w)
  /\ localStorage (env w') = localStorage (env w)
  /\ transport (env w')
     = transport (env w)
       ++ match _session (this w) with
          | Some sess => [SessionClose sess]
          | None => []
          end.
Proof.
  cbv zeta. run_handler.
  destruct (_keepAliveInterval (this w)) as [ka | ] eqn:Hka; simpl;
    destruct (_reconnectTimeout (this w)) as [rt | ] eqn:Hrt; simpl;
    destruct (_session (this w)) as [sess | ] eqn:Hsess; simpl;
    try (match goal with |- context [session_call ?n ?c] => destruct (session_call n c) end;
         simpl);
    destruct (_status (this w)) eqn:Hst; simpl;
    try (destruct (listening (env w)); simpl);
    try (match goal with |- context [subscriber ?e] => destruct (subscriber e) end; simpl);
    rewrite ?app_nil_r; repeat split; solve [ reflexivity | assumption ].
Qed.


(** X4. The heartbeat callback never raises. While the client is connected
    with a session it makes exactly one call on the transport, an empty
    turn-incomplete [sendClientContent]; when that call raises the heartbeat
    stops itself: the interval is cancelled and no longer held. When the
    client is not connected, or has no session, nothing is sent and nothing
    changes. *)
Theorem heartbeat_tick (w : World) :
  let w' := after keepAliveTick w in
  outcome keepAliveTick w = Normal tt
  /\ (forall sess,
        _status (this w) = connected -> _session (this w) = Some sess ->
        transport (env w') = transport (env w) ++ [SendClientContent sess [] false]
        /\ match session_call (length (transport (env w))) (SendClientContent sess [] false) with
           | None => this w' = this w /\ timers (env w') = timers (env w)
           | Some _ =>
               _keepAliveInterval (this w') = None
               /\ timers (env w')
                  = match _keepAliveInterval (this w) with
                    | Some id => delete id (timers (env w))
                    | None => timers (env w)
                    end
               /\ _status (this w') = connected
           end)
  /\ (_status (this w) <> connected \/ _session (this w) = None -> w' = w).
Proof.
  cbv zeta. split; [ | split ].
  - run_handler.
    destruct (_status (this w)); simpl; try reflexivity.
    destruct (_session (this w)) as [sess | ]; simpl; try reflexivity.
    destruct (session_call _ _); simpl; try reflexivity.
    destruct (_keepAliveInterval (this w)); reflexivity.
  - intros sess Hst Hsess. run_handler. rewrite Hst, Hsess. simpl.
    destruct (session_call _ _); simpl.
    + destruct (_keepAliveInterval (this w)) eqn:Hka; simpl; rewrite ?Hst;
        repeat split; solve [ reflexivity | assumption ].
    + repeat split; reflexivity.
  - intros Hidle. run_handler.
    destruct (_status (this w)) eqn:Hst; simpl;
      try (destruct w as [c v]; reflexivity).
    destruct Hidle as [Hne | Hnone]; [ contradiction | ].
    rewrite Hnone. simpl. destruct w as [c v]; reflexivity.
Qed.

(** ** Sending *)

Lemma sendChunks_run (sess : Session) (chunks : list MediaChunk) (hasAudio hasVideo : bool)
    (w : World) :
  (exists flags, outcome (sendChunks sess chunks hasAudio hasVideo) w = Normal flags)
  /\ transport (env (after (sendChunks sess chunks hasAudio hasVideo) w))
     = transport (env w) ++ map (SendRealtimeInput sess) chunks.
Proof.
  revert hasAudio hasVideo w.
  induction chunks as [ | chunk rest IH]; intros hasAudio hasVideo w; simpl.
  - split; [ eexists; reflexivity | symmetry; apply app_nil_r ].
  - unfold after, outcome, bind, try_catch, session_invoke, ret, log, emit. simpl.
    destruct (session_call _ _); simpl;
      match goal with
      | |- context [sendChunks sess rest ?a ?v ?w1] =>
          destruct (IH a v w1) as [Hnormal Hsent]
      end;
      (split; [ exact Hnormal | ]);
      unfold after in Hsent; rewrite Hsent; simpl; rewrite <- app_assoc; reflexivity.
Qed.

(** X5. The three sending methods never raise and touch nothing but the
    event bus and the transport: fields, timers and storage are as before.
    Unless the client is connected and has a session they make no call on
    the transport at all. *)
Theorem sends_are_guarded (o : Op) (w : World) :
  is_send o = true ->
  let w' := after (perform o) w in
  outcome (perform o) w = Normal tt
  /\ off_the_wire w' = off_the_wire w
  /\ (_status (this w) <> connected \/ _session (this w) = None ->
      transport (env w') = transport (env w)).
Proof.
  intros Hsend. cbv zeta. split; [ | split ].
  - destruct o; try discriminate; simpl;
      unfold outcome, sendRealtimeInput, sendToolResponse, send, bind, read, when, try_catch,
        session_invoke, log, emit, ret; simpl;
      destruct (_session (this w)) as [sess | ]; simpl;
      destruct (_status (this w)); simpl; try reflexivity.
    + destruct (sendChunks_run sess chunks false false w) as [[flags Hflags] _].
      unfold outcome in Hflags. destruct (sendChunks sess chunks false false w) as [w1 r].
      simpl in Hflags. subst r. destruct (0 <? length chunks)%nat; reflexivity.
    + destruct responses as [[ | r rs] | ]; simpl; try reflexivity.
      destruct (session_call _ _); reflexivity.
    + destruct ((length turn =? 0)%nat && negb complete); simpl; try reflexivity.
      destruct (session_call _ _); reflexivity.
  - assert (keeps off_the_wire (perform o)) as Hkeeps
      by (destruct o; try discriminate; keeps_method).
    apply Hkeeps.
  - intros Hidle.
    destruct o; try discriminate; simpl;
      unfold after, sendRealtimeInput, sendToolResponse, send, bind, read, log, emit; simpl;
      destruct (_session (this w)) as [sess | ]; simpl;
      destruct (_status (this w)); simpl; try reflexivity;
      destruct Hidle as [Hne | Hnone]; solve [ contradiction | discriminate ].
Qed.

(** X6. While the client is connected with a session, [sendRealtimeInput]
    hands every chunk to the transport, in order, whether or not earlier
    chunks were refused; [send] makes one [sendClientContent] call unless the
    turn is empty and not complete, in which case it makes none; and
    [sendToolResponse] makes one call exactly when there is at least one
    function response. *)
Theorem sends_when_connected (sess : Session) (w : World) :
  _status (this w) = connected -> _session (this w) = Some sess ->
  (forall chunks,
      transport (env (after (sendRealtimeInput chunks) w))
      = transport (env w) ++ map (SendRealtimeInput sess) chunks)
  /\ (forall turn complete,
        transport (env (after (send turn complete) w))
        = transport (env w)
          ++ (if (length turn =? 0)%nat && negb complete then []
              else [SendClientContent sess [turn] complete]))
  /\ (forall responses,
        transport (env (after (sendToolResponse responses) w))
        = transport (env w)
          ++ match responses with
             | Some (r :: rs) => [SendToolResponse sess (r :: rs)]
             | _ => []
             end).
Proof.
  intros Hst Hsess. split; [ | split ].
  - intros chunks.
    destruct (sendChunks_run sess chunks false false w) as [[flags Hflags] Hsent].
    unfold after, outcome, sendRealtimeInput, bind, read in *. simpl. rewrite Hst, Hsess.
    destruct (sendChunks sess chunks false false w) as [w1 r]. simpl in *. subst r.
    rewrite <- Hsent. unfold when, log, emit, ret.
    destruct (0 <? length chunks)%nat; reflexivity.
  - intros turn complete.
    unfold after, send, bind, read, try_catch, session_invoke, log, emit. simpl.
    rewrite Hst, Hsess.
    destruct ((length turn =? 0)%nat && negb complete); simpl;
      [ symmetry; apply app_nil_r | ].
    destruct (session_call _ _); reflexivity.
  - intros responses.
    unfold after, sendToolResponse, bind, read, try_catch, session_invoke, log, emit. simpl.
    rewrite Hst, Hsess.
    destruct responses as [[ | r rs] | ]; simpl; try (symmetry; apply app_nil_r).
    destruct (session_call _ _); reflexivity.
Qed.

(** X7. [forceReconnect] changes no field of the client. It closes the
    session when the client is connected and has one, and otherwise does
    nothing at all; unlike [disconnect] it lets a failure of that call
    through to its caller. *)
Theorem forceReconnect_only_closes (w : World) :
  let w' := after forceReconnect w in
  off_the_wire w' = off_the_wire w
  /\ (forall sess,
        _status (this w) = connected -> _session (this w) = Some sess ->
        transport (env w') = transport (env w) ++ [SessionClose sess]
        /\ outcome forceReconnect w
           = match session_call (length (transport (env w))) (SessionClose sess) with
             | Some x => Throw x
             | None => Normal tt
             end)
  /\ (_status (this w) <> connected \/ _session (this w) = None ->
      w' = w /\ outcome forceReconnect w = Normal tt).
Proof.
  cbv zeta. split; [ | split ].
  - assert (keeps off_the_wire forceReconnect) as Hkeeps by keeps_method.
    apply Hkeeps.
  - intros sess Hst Hsess.
    unfold after, outcome, forceReconnect, bind, read, session_invoke, log, emit. simpl.
    rewrite Hst, Hsess. simpl. destruct (session_call _ _); split; reflexivity.
  - intros Hidle.
    unfold after, outcome, forceReconnect, bind, read, ret. simpl.
    destruct (_status (this w)) eqn:Hst; simpl;
      try (destruct w as [c v]; split; reflexivity).
    destruct Hidle as [Hne | Hnone]; [ contradiction | ].
    rewrite Hnone. destruct w as [c v]; split; reflexivity.
Qed.

(** ** Opening a connection *)

Ltac run_connect :=
  unfold after, outcome, connect, when, _setSessionHandle, memory_set, memory_delete,
    client_live_connect, localStorage_removeItem, log, emit, try_catch, bind, read, write,
    ret, throw;
  simpl.

(** What an admitted [connect] does before the transport answers, and what
    it leaves when the transport accepted. *)
Lemma connect_admitted (model : string) (cfg : LiveConnectConfig) (isReconnect : bool)
    (w : World) :
  _status (this w) = disconnected \/ (_status (this w) = connected /\ isReconnect = true) ->
  let w' := after (connect model cfg isReconnect) w in
  transport (env w')
  = transport (env w) ++ [LiveConnect model (enhancedConfig cfg (_sessionHandle (this w)))]
  /\ _model (this w') = Some model
  /\ config (this w') = Some cfg
  /\ _reconnectAttempts (this w') = _reconnectAttempts (this w)
  /\ _reconnectTimeout (this w') = _reconnectTimeout (this w)
  /\ _keepAliveInterval (this w') = _keepAliveInterval (this w)
  /\ timers (env w') = timers (env w)
  /\ forall sess,
       live_connect (length (transport (env w))) model
         (enhancedConfig cfg (_sessionHandle (this w))) = Normal sess ->
       outcome (connect model cfg isReconnect) w = Normal true
       /\ _session (this w') = Some sess
       /\ _status (this w') = connecting
       /\ handle_store w' = handle_store w.
Proof.
  intros Hadmit. cbv zeta. run_connect.
  assert (bool_decide (_status (this w) = connecting)
          || bool_decide (_status (this w) = connected) && negb isReconnect = false) as ->.
  { destruct Hadmit as [-> | [-> ->]]; reflexivity. }
  simpl. destruct (live_connect _ _ _) as [s | e]; simpl.
  - repeat split; try reflexivity; congruence.
  - destruct isReconnect; simpl;
      [ | destruct (removeItem_raises (localStorage (env w))); simpl ];
      repeat split; try reflexivity; congruence.
Qed.


(** ** Edge cases of the retry loop *)

(** X9. [_reconnect] does nothing at all on a connected client. Below the
    ceiling, on a client that has no model or no configuration to replay, it
    only cancels the retry timer it holds: no call on the transport, counter
    unchanged, no timer armed. And when it finds a connection attempt in
    progress, the inner [connect] is turned away without raising, so the
    counter goes back to zero and no retry is scheduled. *)
Theorem reconnect_edge_cases (w : World) :
  let w' := after _reconnect w in
  (_status (this w) = connected -> w' = w /\ outcome _reconnect w = Normal tt)
  /\ (_status (this w) <> connected ->
      _reconnectAttempts (this w) < MAX_RECONNECT_ATTEMPTS ->
      truthy (_model (this w)) = false \/ config (this w) = None ->
      outcome _reconnect w = Normal tt
      /\ transport (env w') = transport (env w)
      /\ _reconnectAttempts (this w') = _reconnectAttempts (this w)
      /\ _reconnectTimeout (this w') = None
      /\ timers (env w')
         = match _reconnectTimeout (this w) with
           | Some id => delete id (timers (env w))
           | None => timers (env w)
           end)
  /\ (_status (this w) = connecting ->
      _reconnectAttempts (this w) < MAX_RECONNECT_ATTEMPTS ->
      truthy (_model (this w)) = true -> is_Some (config (this w)) ->
      outcome _reconnect w = Normal tt
      /\ transport (env w') = transport (env w)
      /\ _reconnectAttempts (this w') = 0
      /\ _reconnectTimeout (this w') = None
      /\ _status (this w') = connecting
      /\ timers (env w')
         = match _reconnectTimeout (this w) with
           | Some id => delete id (timers (env w))
           | None => timers (env w)
           end).
Proof.
  cbv zeta. unfold after, outcome. rewrite reconnect_unfold.
  destruct (prepared_this w) as (_ & _ & Ha & Ht & Hm & Hc & Hs & _).
  destruct (prepared_env w) as (Htm & _ & Htr & _).
  split; [ | split ].
  - intros ->. simpl. split; reflexivity.
  - intros Hst Hlt Hnothing.
    rewrite bool_decide_eq_false_2 by exact Hst.
    apply Z.leb_gt in Hlt. rewrite Hlt.
    unfold try_catch, attemptReconnect, bind, read, ret. simpl. rewrite Hm, Hc.
    destruct (_model (this w)) as [[ | a model] | ] eqn:Hmodel;
      destruct (config (this w)) as [cfg | ] eqn:Hconfig; simpl;
      try (repeat split; solve [ reflexivity | assumption ]).
    destruct Hnothing as [Hfalsy | Hnone]; discriminate.
  - intros Hst Hlt Htruthy [cfg Hconfig].
    rewrite Hst. simpl. apply Z.leb_gt in Hlt. rewrite Hlt.
    unfold try_catch, attemptReconnect, bind, read, ret. simpl. rewrite Hm, Hc, Hconfig.
    destruct (_model (this w)) as [[ | a model] | ] eqn:Hmodel; try discriminate.
    unfold connect, bind, read, write, ret, log, emit. simpl.
    rewrite Hs, Hst. simpl. repeat split; solve [ reflexivity | assumption | congruence ].
Qed.

(** ** Closures *)

(** One attempt of [_reconnect] on an idle client below the ceiling. *)
Lemma reconnect_attempt (model : string) (cfg : LiveConnectConfig) (w : World) :
  _status (this w) = disconnected ->
  _reconnectAttempts (this w) < MAX_RECONNECT_ATTEMPTS ->
  _model (this w) = Some model -> model <> "" -> config (this w) = Some cfg ->
  let w' := after _reconnect w in
  outcome _reconnect w = Normal tt
  /\ transport (env w')
     = transport (env w) ++ [LiveConnect model (enhancedConfig cfg (_sessionHandle (this w)))]
  /\ _model (this w') = Some model
  /\ config (this w') = Some cfg
  /\ forall sess,
       live_connect (length (transport (env w))) model
         (enhancedConfig cfg (_sessionHandle (this w))) = Normal sess ->
       _session (this w') = Some sess
       /\ _status (this w') = connecting
       /\ _reconnectAttempts (this w') = 0
       /\ _reconnectTimeout (this w') = None.
Proof.
  intros Hst Hlt Hm Hne Hc. cbv zeta.
  destruct (prepared_this w) as (Hh & Hr & Ha & Ht & Hm' & Hc' & Hs & _).
  destruct (prepared_env w) as (Htm & Hnt & Htr & Hdr & _).
  assert (_status (this (prepared w)) = disconnected
          \/ (_status (this (prepared w)) = connected /\ true = true)) as Hadmit
    by (left; congruence).
  destruct (connect_admitted model cfg true (prepared w) Hadmit)
    as (C1 & C2 & C3 & C4 & C5 & C6 & C7 & Cok).
  rewrite Htr, Hh in Cok. rewrite Htr, Hh in C1. rewrite Ht in C5.
  unfold after, outcome. rewrite reconnect_unfold, Hst.
  rewrite bool_decide_eq_false_2 by discriminate.
  rewrite (proj2 (Z.leb_gt _ _)) by exact Hlt.
  assert (attemptReconnect (prepared w)
          = match connect model cfg true (prepared w) with
            | (w2, Normal _) => (upd_this (set_reconnectAttempts 0) w2, Normal tt)
            | (w2, Throw e) => (w2, Throw e)
            end) as Hrun.
  { unfold attemptReconnect, bind, read, write. simpl. rewrite Hm', Hm, Hc', Hc.
    destruct model as [ | a model]; [ contradiction | ]. simpl.
    destruct (connect (String a model) cfg true (prepared w)) as [w2 [b | e]];
      reflexivity. }
  unfold try_catch. rewrite Hrun. unfold after, outcome in C1, C2, C3, C4, C5, Cok.
  destruct (connect model cfg true (prepared w)) as [w2 [b | e]]; simpl in *.
  - split; [ reflexivity | ]. split; [ exact C1 | ]. split; [ exact C2 | ].
    split; [ exact C3 | ]. intros sess Hopen.
    destruct (Cok sess Hopen) as (_ & K1 & K2 & _).
    split; [ exact K1 | ]. split; [ exact K2 | ]. split; [ reflexivity | exact C5 ].
  - split; [ reflexivity | ]. split; [ exact C1 | ]. split; [ exact C2 | ].
    split; [ exact C3 | ]. intros sess Hopen.
    destruct (Cok sess Hopen) as (Habs & _). discriminate.
Qed.



Lemma onclose_unfold (e : CloseEvent) (w : World) :
  (listening (env w) = true -> subscriber (EvClose e) = None) ->
  onclose e w
  = (if _shouldReconnectOnClose (this w) (code e) (_status (this w))
        && (truthy (_sessionHandle (this w)) || bool_decide (is_Some (config (this w))))
     then
       log "client.reconnect.trigger"
         (LogString ("Attempting reconnection after closure (code: " +:+ pretty (code e)
                     +:+ ")")) ;;
       _reconnect
     else if (code e =? 1000) || (code e =? 1001) then
       _setSessionHandle None ;;
       write (set_sessionResumable false) ;;
       log "client.session.clear" (LogString "Session cleared after normal closure")
     else ret tt) (closed e w).
Proof.
  intros Hquiet.
  unfold onclose, closed, after, _stopKeepAlive, clearInterval, clearTimeout, log, emit,
    bind, read, write, ret.
  destruct (_keepAliveInterval (this w)) as [ka | ]; simpl;
    (destruct (listening (env w)); [ rewrite Hquiet by reflexivity | ]); reflexivity.
Qed.




(** ** What is retained, and what [destroy] leaves *)

Lemma connect_retained (model : string) (cfg : LiveConnectConfig) (r : bool) (w : World) :
  retained (after (connect model cfg r) w) = retained w
  \/ retained (after (connect model cfg r) w) = (Some model, Some cfg).
Proof.
  run_connect.
  destruct (_status (this w)), r; simpl; try (left; reflexivity);
    destruct (live_connect _ _ _); simpl; try (right; reflexivity);
    destruct (removeItem_raises (localStorage (env w))); right; reflexivity.
Qed.

Lemma keeps_retained_attemptReconnect : keeps retained attemptReconnect.
Proof.
  intros w. unfold after, attemptReconnect, bind at 1, read at 1. simpl.
  unfold bind at 1, read at 1. simpl.
  destruct (_model (this w)) as [model | ] eqn:Hm; [ | reflexivity ].
  destruct (config (this w)) as [cfg | ] eqn:Hc; [ | reflexivity ].
  destruct (truthy (Some model)); [ | reflexivity ].
  pose proof (connect_retained model cfg true w) as Hkept.
  unfold after, bind, write in *.
  destruct (connect model cfg true w) as [w2 [b | e]]; simpl in *;
    (transitivity (retained w2); [ reflexivity | ]);
    (destruct Hkept as [Hkept | Hkept]; rewrite Hkept; unfold retained;
     rewrite ?Hm, ?Hc; reflexivity).
Qed.

Lemma keeps_retained_reconnect : keeps retained _reconnect.
Proof.
  unfold _reconnect, clearReconnectTimeout, giveUp, scheduleRetry, _setSessionHandle,
    memory_delete, setTimeout.
  repeat first [ apply keeps_retained_attemptReconnect | keeps_step ].
Qed.

Lemma keeps_retained (o : Op) : is_connect o = false -> keeps retained (perform o).
Proof.
  destruct o; try discriminate; intros _; try solve [ keeps_method ].
  - simpl. unfold onclose, _stopKeepAlive, clearInterval, _setSessionHandle, memory_delete.
    repeat first [ apply keeps_retained_reconnect | keeps_step ].
  - simpl. apply keeps_timerDue; [ keeps_side | apply keeps_retained_reconnect | keeps_method ].
Qed.

(** X12. The model and the configuration a [connect] left on the client
    stay there through every other operation: closures, messages, timers,
    sends, [clearSession], and also [disconnect] and [destroy]. Only another
    [connect] from outside replaces them. *)
Theorem model_and_config_retained (ops : list Op) (w : World) :
  Forall (fun o => is_connect o = false) ops ->
  _model (this (run ops w)) = _model (this w)
  /\ config (this (run ops w)) = config (this w).
Proof.
  intros Hops.
  assert (retained (run ops w) = retained w) as Hkept.
  { revert w. induction Hops as [ | o ops Ho _ IH]; intros w; simpl.
    - reflexivity.
    - etransitivity; [ apply IH | apply (keeps_retained o Ho) ]. }
  injection Hkept as Hm Hc. split; assumption.
Qed.

(** How [disconnect] completes: it raises only when a [close] subscriber
    raises on the closure it dispatches. *)
Lemma disconnect_outcome (w : World) :
  outcome disconnect w
  = (if bool_decide (_status (this w) = disconnected) then Normal true
     else if listening (env w) then
            match subscriber (EvClose programmatic_disconnect) with
            | Some x => Throw x
            | None => Normal true
            end
          else Normal true)
  /\ listening (env (after disconnect w)) = listening (env w).
Proof.
  run_handler.
  destruct (_keepAliveInterval (this w)) as [ka | ]; simpl;
    destruct (_reconnectTimeout (this w)) as [rt | ]; simpl;
    destruct (_session (this w)) as [sess | ]; simpl;
    try (match goal with |- context [session_call ?n ?c] => destruct (session_call n c) end;
         simpl);
    destruct (_status (this w)); simpl;
    try (destruct (listening (env w)) eqn:Hl; simpl);
    try (match goal with |- context [subscriber ?e] => destruct (subscriber e) end; simpl);
    split; solve [ reflexivity | assumption ].
Qed.


(** ** Invariants of every reachable state *)

Lemma maintains_ret {A} (P : World -> Prop) (a : A) : maintains P (ret a).
Proof. intros w Hw. exact Hw. Qed.

Lemma maintains_bind {A B} (P : World -> Prop) (m : M A) (k : A -> M B) :
  maintains P m -> (forall a, maintains P (k a)) -> maintains P (bind m k).
Proof.
  intros Hm Hk w Hw. specialize (Hm w Hw). unfold after, bind in *.
  destruct (m w) as [w1 [a | e]]; simpl in *; [ apply Hk, Hm | exact Hm ].
Qed.

Lemma maintains_try_catch {A} (P : World -> Prop) (m : M A) (h : Thrown -> M A) :
  maintains P m -> (forall e, maintains P (h e)) -> maintains P (try_catch m h).
Proof.
  intros Hm Hh w Hw. specialize (Hm w Hw). unfold after, try_catch in *.
  destruct (m w) as [w1 [a | e]]; simpl in *; [ exact Hm | apply Hh, Hm ].
Qed.

Lemma maintains_try_finally {A} (P : World -> Prop) (m : M A) (c : M unit) :
  maintains P m -> maintains P c -> maintains P (try_finally m c).
Proof.
  intros Hm Hc w Hw. specialize (Hm w Hw). unfold after, try_finally in *.
  destruct (m w) as [w1 r]; simpl in *. specialize (Hc w1 Hm). unfold after in Hc.
  destruct (c w1) as [w2 [[] | e]]; exact Hc.
Qed.

Lemma maintains_discard {A} (P : World -> Prop) (m : M A) :
  maintains P m -> maintains P (discard m).
Proof.
  intros Hm w Hw. specialize (Hm w Hw). unfold after, discard in *.
  destruct (m w) as [w1 [a | e]]; exact Hm.
Qed.

Lemma maintains_when (P : World -> Prop) (b : bool) (m : M unit) :
  maintains P m -> maintains P (when b m).
Proof. intros Hm. destruct b; [ exact Hm | apply maintains_ret ]. Qed.

(** One step through the structure of a method; [leaf] settles the calls
    that touch what the invariant is about, and whatever leaves it alone. *)
Ltac maintains_step leaf :=
  first
    [ leaf
    | apply maintains_ret
    | apply maintains_bind; [ | intros ? ]
    | apply maintains_try_catch; [ | intros ? ]
    | apply maintains_try_finally
    | apply maintains_when
    | apply maintains_discard
    | match goal with
      | |- maintains _ (match ?x with _ => _ end) => destruct x eqn:?
      end ].

(** *** The heartbeat *)

Lemma heartbeat_inv_keeps {A} (m : M A) : keeps heartbeat_state m -> maintains heartbeat_inv m.
Proof.
  intros Hk w Hw. specialize (Hk w). unfold heartbeat_state in Hk.
  injection Hk as Hfield Htimers. unfold heartbeat_inv. rewrite Hfield, Htimers. exact Hw.
Qed.

Lemma heartbeat_inv_clearTimeout (id : TimerId) : maintains heartbeat_inv (clearTimeout id).
Proof.
  intros w Hw i x Hi Hkind. simpl in Hi. apply lookup_delete_Some in Hi.
  destruct Hi as [_ Hi]. exact (Hw i x Hi Hkind).
Qed.

Lemma heartbeat_inv_arm_retry (ms : Q) : maintains heartbeat_inv (arm ReconnectTick ms).
Proof.
  intros w Hw i x Hi Hkind. simpl in Hi.
  destruct (decide (nextTimer (env w) = i)) as [<- | Hne].
  - rewrite lookup_insert_eq in Hi. injection Hi as <-. discriminate.
  - rewrite lookup_insert_ne in Hi by exact Hne. exact (Hw i x Hi Hkind).
Qed.

Lemma heartbeat_inv_stopKeepAlive : maintains heartbeat_inv _stopKeepAlive.
Proof.
  intros w Hw. unfold after, _stopKeepAlive, clearInterval, clearTimeout, bind, read, write.
  simpl. destruct (_keepAliveInterval (this w)) as [k | ] eqn:Hka; simpl.
  - intros i x Hi Hkind. simpl in Hi. apply lookup_delete_Some in Hi.
    destruct Hi as [Hne Hi]. destruct (Hw i x Hi Hkind) as [Hheld _]. congruence.
  - exact Hw.
Qed.

Lemma heartbeat_inv_startKeepAlive : maintains heartbeat_inv _startKeepAlive.
Proof.
  intros w Hw.
  unfold after, _startKeepAlive, _stopKeepAlive, setInterval, arm, clearInterval,
    clearTimeout, bind, read, write.
  simpl. destruct (_keepAliveInterval (this w)) as [k | ] eqn:Hka; simpl;
    intros i x Hi Hkind; simpl in Hi |- *;
    (destruct (decide (nextTimer (env w) = i)) as [<- | Hne];
     [ rewrite lookup_insert_eq in Hi; injection Hi as <-; split; reflexivity
     | rewrite lookup_insert_ne in Hi by exact Hne ]).
  - apply lookup_delete_Some in Hi. destruct Hi as [Hnk Hi].
    destruct (Hw i x Hi Hkind) as [Hheld _]. congruence.
  - destruct (Hw i x Hi Hkind) as [Hheld _]. congruence.
Qed.

Ltac heartbeat_leaf :=
  first
    [ apply heartbeat_inv_startKeepAlive
    | apply heartbeat_inv_stopKeepAlive
    | apply heartbeat_inv_clearTimeout
    | apply heartbeat_inv_arm_retry
    | solve [ apply heartbeat_inv_keeps; keeps_method ] ].

Lemma heartbeat_inv_reconnect : maintains heartbeat_inv _reconnect.
Proof.
  unfold _reconnect, clearReconnectTimeout, giveUp, scheduleRetry.
  repeat maintains_step heartbeat_leaf.
Qed.

Lemma heartbeat_inv_keepAliveTick : maintains heartbeat_inv keepAliveTick.
Proof. unfold keepAliveTick. repeat maintains_step heartbeat_leaf. Qed.

Lemma heartbeat_inv_timerDue (id : TimerId) : maintains heartbeat_inv (timerDue id).
Proof.
  intros w Hw. unfold after, timerDue.
  destruct (timers (env w) !! id) as [[[ | ] ms] | ].
  - apply heartbeat_inv_reconnect. exact (heartbeat_inv_clearTimeout id w Hw).
  - apply heartbeat_inv_keepAliveTick, Hw.
  - exact Hw.
Qed.

Lemma heartbeat_inv_perform (o : Op) : maintains heartbeat_inv (perform o).
Proof.
  destruct o; simpl; try solve [ apply heartbeat_inv_keeps; keeps_method ].
  - unfold disconnect, clearReconnectTimeout. repeat maintains_step heartbeat_leaf.
  - unfold onopen. repeat maintains_step heartbeat_leaf.
  - unfold onclose. repeat maintains_step ltac:(first [ apply heartbeat_inv_reconnect
                                                        | heartbeat_leaf ]).
  - apply heartbeat_inv_timerDue.
  - unfold destroy, disconnect, clearReconnectTimeout. repeat maintains_step heartbeat_leaf.
Qed.






(** *** The handle store *)
















(** ** The order of the events of a message *)

Lemma yields_ret {A} (a : A) : yields (ret a) [].
Proof. intros w. split; [ eexists; reflexivity | symmetry; apply app_nil_r ]. Qed.

Lemma yields_bind {A B} (m : M A) (k : A -> M B) (l1 l2 : list Event) :
  yields m l1 -> (forall a, yields (k a) l2) -> yields (bind m k) (l1 ++ l2).
Proof.
  intros Hm Hk w. destruct (Hm w) as [[a Ha] Hl1].
  unfold after, outcome in *. unfold bind.
  destruct (m w) as [w1 r]. simpl in *. subst r.
  destruct (Hk a w1) as [Hnormal Hl2]. unfold after, outcome in Hnormal, Hl2.
  split; [ exact Hnormal | ].
  rewrite Hl2, Hl1, app_assoc. reflexivity.
Qed.

Lemma yields_nil_l {A B} (m : M A) (k : A -> M B) (l : list Event) :
  yields m [] -> (forall a, yields (k a) l) -> yields (bind m k) l.
Proof. intros Hm Hk. apply (yields_bind m k [] l Hm Hk). Qed.

Lemma yields_log (t : string) (msg : LogMessage) : yields (log t msg) [].
Proof.
  intros w. unfold outcome, after. rewrite log_run. simpl.
  split; [ eexists; reflexivity | ].
  unfold typed_events. rewrite List.filter_app. reflexivity.
Qed.

Lemma yields_write (g : Client -> Client) : yields (write g) [].
Proof. intros w. split; [ eexists; reflexivity | symmetry; apply app_nil_r ]. Qed.

Lemma yields_read {A} (g : Client -> A) : yields (read g) [].
Proof. intros w. split; [ eexists; reflexivity | symmetry; apply app_nil_r ]. Qed.

Lemma yields_setSessionHandle (h : option string) : yields (_setSessionHandle h) [].
Proof.
  intros w. run_store.
  destruct h as [[ | a s] | ]; simpl;
    destruct (setItem_raises (localStorage (env w))),
      (removeItem_raises (localStorage (env w)));
    simpl; (split; [ eexists; reflexivity | symmetry; apply app_nil_r ]).
Qed.

Lemma yields_thrown {A B} (m : M unit) (e : Thrown) (k : A -> M B) (h : Thrown -> M B)
    (l1 l2 : list Event) :
  yields m l1 -> yields (h e) l2 ->
  yields (try_catch (bind m (fun _ => bind (throw e) k)) h) (l1 ++ l2).
Proof.
  intros Hm Hh w. destruct (Hm w) as [[[] Ha] Hl1].
  unfold after, outcome, try_catch, bind, throw in *.
  destruct (m w) as [w1 r]. simpl in *. subst r.
  destruct (Hh w1) as [Hnormal Hl2]. unfold after, outcome in Hnormal, Hl2.
  split; [ exact Hnormal | ]. rewrite Hl2, Hl1, app_assoc. reflexivity.
Qed.

Section QuietSubscribers.

Hypothesis quiet : forall e, subscriber e = None.

Lemma yields_emit (e : Event) : is_typed e = true -> yields (emit e) [e].
Proof.
  intros Htyped w. unfold outcome, after, emit.
  destruct e; try discriminate; simpl; rewrite quiet;
    (destruct (listening (env w)); simpl;
     (split; [ eexists; reflexivity | ]);
     unfold typed_events; rewrite List.filter_app; reflexivity).
Qed.

Lemma yields_try_catch {A} (m : M A) (h : Thrown -> M A) (l : list Event) :
  yields m l -> yields (try_catch m h) l.
Proof.
  intros Hm w. destruct (Hm w) as [[a Ha] Hl]. unfold after, outcome, try_catch in *.
  destruct (m w) as [w1 r]. simpl in *. subst r. split; [ eexists; reflexivity | exact Hl ].
Qed.

Lemma yields_decoded {A} (d : string) (buf : ArrayBuffer) (k : ArrayBuffer -> M A)
    (l : list Event) :
  base64ToArrayBuffer d = Normal buf -> yields (k buf) l -> yields (bind (decode d) k) l.
Proof.
  intros Hd Hk w. specialize (Hk w). unfold after, outcome, bind, decode in *.
  rewrite Hd. exact Hk.
Qed.

Lemma yields_undecoded {A} (d : string) (e : Thrown) (k : ArrayBuffer -> M A)
    (h : Thrown -> M A) (l : list Event) :
  base64ToArrayBuffer d = Throw e -> yields (h e) l ->
  yields (try_catch (bind (decode d) k) h) l.
Proof.
  intros Hd Hh w. specialize (Hh w). unfold after, outcome, try_catch, bind, decode in *.
  rewrite Hd. exact Hh.
Qed.

Lemma yields_processAudioPart (part : Part) :
  yields (processAudioPart part) (audio_event part).
Proof.
  unfold processAudioPart, audio_event, audio_payload.
  destruct (inlineData part) as [b | ]; [ | apply yields_ret ].
  destruct (data b) as [d | ]; [ | apply yields_ret ].
  destruct (truthy (Some d)); [ | apply yields_ret ].
  destruct (base64ToArrayBuffer d) as [buf | e] eqn:Hd.
  - apply yields_try_catch, (yields_decoded d buf _ _ Hd).
    apply (yields_bind _ _ [_] []); [ apply yields_emit; reflexivity | intros _ ].
    apply yields_log.
  - apply (yields_undecoded d e _ _ _ Hd), yields_log.
Qed.

Lemma yields_forEach {A} (l : list A) (f : A -> M unit) (g : A -> list Event) :
  (forall x, yields (f x) (g x)) -> yields (forEach l f) (flat_map g l).
Proof.
  intros Hf. induction l as [ | x l IH]; simpl.
  - apply yields_ret.
  - apply yields_bind; [ apply Hf | intros _; exact IH ].
Qed.

Lemma yields_emitOtherParts (others : list Part) :
  yields (emitOtherParts others)
    match others with
    | [] => []
    | p :: rest => [EvContent (contentToEmit (p :: rest))]
    end.
Proof.
  unfold emitOtherParts. destruct others as [ | p others]; simpl.
  - apply yields_ret.
  - apply (yields_bind _ _ [_] []); [ apply yields_emit; reflexivity | intros _ ].
    apply yields_log.
Qed.

Lemma yields_processParts (ps : list Part) :
  yields (processParts ps)
    (flat_map audio_event (List.filter isAudioPart ps)
     ++ match List.filter (fun p => negb (isAudioPart p)) ps with
        | [] => []
        | p :: rest => [EvContent (contentToEmit (p :: rest))]
        end).
Proof.
  unfold processParts. rewrite difference_audio.
  apply yields_bind; [ apply yields_forEach, yields_processAudioPart | intros _ ].
  apply yields_emitOtherParts.
Qed.

Lemma yields_processServerContent (sc : LiveServerContent) :
  yields (processServerContent sc) (content_events sc).
Proof.
  unfold processServerContent, content_events.
  apply yields_bind; [ | intros _; apply yields_bind; [ | intros _; apply yields_bind ] ].
  - destruct (interrupted sc); [ | apply yields_ret ].
    apply yields_nil_l; [ apply yields_log | intros _; apply yields_emit; reflexivity ].
  - destruct (turnComplete sc); [ | apply yields_ret ].
    apply yields_nil_l; [ apply yields_log | intros _; apply yields_emit; reflexivity ].
  - destruct (generationComplete sc) as [[ | ] | ]; try apply yields_ret.
    apply yields_nil_l; [ apply yields_log | intros _; apply yields_emit; reflexivity ].
  - intros _. destruct (modelTurn sc) as [turn | ]; [ | apply yields_ret ].
    destruct (parts turn) as [ps | ]; [ | apply yields_ret ].
    apply yields_processParts.
Qed.

Lemma yields_applyResumptionUpdate (u : SessionResumptionUpdate) :
  yields (applyResumptionUpdate u) [].
Proof.
  unfold applyResumptionUpdate.
  destruct (resumable u && truthy (newHandle u)).
  - apply yields_nil_l; [ apply yields_read | intros h ].
    apply yields_nil_l; [ | intros _; apply yields_write ].
    destruct (negb (bool_decide (h = newHandle u))); [ | apply yields_ret ].
    simpl. apply yields_nil_l; [ apply yields_setSessionHandle | intros _; apply yields_log ].
  - apply yields_nil_l; [ apply yields_setSessionHandle | intros _ ].
    apply yields_nil_l; [ apply yields_write | intros _; apply yields_log ].
Qed.

Lemma yields_dispatch (m : LiveServerMessage) : yields (dispatch m) (dispatch_events m).
Proof.
  unfold dispatch, dispatch_events.
  apply yields_bind; [ | intros _; apply yields_bind; [ | intros _ ] ].
  - destruct (goAway m); [ | apply yields_ret ].
    apply yields_nil_l; [ apply yields_log | intros _; apply yields_emit; reflexivity ].
  - destruct (setupComplete m); [ | apply yields_ret ].
    apply yields_nil_l; [ apply yields_log | intros _; apply yields_emit; reflexivity ].
  - destruct (toolCall m).
    { apply yields_nil_l; [ apply yields_log | intros _; apply yields_emit; reflexivity ]. }
    destruct (toolCallCancellation m).
    { apply yields_nil_l; [ apply yields_log | intros _; apply yields_emit; reflexivity ]. }
    destruct (serverContent m); [ apply yields_processServerContent | apply yields_ret ].
Qed.

Lemma yields_onmessage (m : LiveServerMessage) : yields (onmessage m) (message_events m).
Proof.
  unfold onmessage, onmessage_body, message_events.
  destruct (sessionResumptionUpdate m) as [ | | u].
  - intros w.
    assert (yields (log "server.message.raw" (LogServerMessage m) ;; ret tt ;; dispatch m)
              ([] ++ [] ++ dispatch_events m)) as Hbody.
    { apply yields_bind; [ apply yields_log | intros _ ].
      apply yields_bind; [ apply yields_ret | intros _; apply yields_dispatch ]. }
    destruct (Hbody w) as [[[] Hnormal] Hevents]. unfold outcome, after, try_catch in *.
    destruct (bind _ _ w) as [w1 r]. simpl in *. subst r.
    split; [ eexists; reflexivity | exact Hevents ].
  - apply (yields_thrown _ _ _ _ [] []); apply yields_log.
  - intros w.
    assert (yields (log "server.message.raw" (LogServerMessage m) ;;
                    processResumptionUpdate u ;; dispatch m)
              ([] ++ ([] ++ [EvSessionResumptionUpdate u]) ++ dispatch_events m)) as Hbody.
    { apply yields_bind; [ apply yields_log | intros _ ].
      apply yields_bind; [ | intros _; apply yields_dispatch ].
      unfold processResumptionUpdate.
      apply yields_bind; [ apply yields_applyResumptionUpdate | intros _ ].
      apply yields_emit. reflexivity. }
    destruct (Hbody w) as [[[] Hnormal] Hevents]. unfold outcome, after, try_catch in *.
    destruct (bind _ _ w) as [w1 r]. simpl in *. subst r.
    split; [ eexists; reflexivity | exact Hevents ].
Qed.

End QuietSubscribers.

(** X19. The order of the events of a message. When no subscriber raises,
    a message is turned into typed events in a fixed order: the
    session-resumption update, go-away, setup-complete, and then either the
    tool call alone, or the tool-call cancellation alone, or the events of
    the content ([interrupted] and [turncomplete] whenever the field is
    present, also when it is [false]; [generationcomplete] only when it is
    [true]; one [audio] event per decodable audio part; one [content] event
    for the remaining parts). A message whose session-resumption entry is
    present but empty yields no typed event at all. *)
Theorem onmessage_event_order (m : LiveServerMessage) (w : World) :
  (forall e, subscriber e = None) ->
  typed_events (emitted (env (after (onmessage m) w)))
  = typed_events (emitted (env w)) ++ message_events m.
Proof. intros quiet. exact (proj2 (yields_onmessage quiet m w)). Qed.

(** Side conditions on a filtered view of the event bus: an event outside
    the filter leaves the view as it is. *)
Ltac events_side :=
  intros; cbv beta; simpl;
  try unfold output_events; try unfold cancellation_events;
  rewrite List.filter_app; simpl; rewrite app_nil_r; reflexivity.

Ltac events_step :=
  first
    [ apply keeps_log; events_side
    | apply keeps_emit; events_side
    | keeps_step ].

Ltac events_method :=
  unfold onmessage, onmessage_body, dispatch, processResumptionUpdate,
    applyResumptionUpdate, _setSessionHandle, memory_set, memory_delete;
  repeat events_step.

(** X20. A message that carries a tool call, or a tool-call cancellation,
    is never read for content: whatever its server content holds and
    whatever the subscribers do, no [audio], [content], [interrupted],
    [turncomplete] or [generationcomplete] event is emitted for it. And a
    tool call takes precedence over a cancellation in the same message: the
    cancellation is not emitted. *)
Theorem tool_call_hides_content (m : LiveServerMessage) (w : World) :
  is_Some (toolCall m) \/ is_Some (toolCallCancellation m) ->
  let w' := after (onmessage m) w in
  output_events (emitted (env w')) = output_events (emitted (env w))
  /\ (is_Some (toolCall m) ->
      cancellation_events (emitted (env w')) = cancellation_events (emitted (env w))).
Proof.
  intros Hcall. cbv zeta. split.
  - assert (keeps (fun w => output_events (emitted (env w))) (onmessage m)) as Hkeeps.
    { destruct (toolCall m) as [t | ] eqn:Htool.
      - unfold onmessage, onmessage_body, dispatch. rewrite Htool. events_method.
      - destruct Hcall as [[t Habs] | [c Hcancel]]; [ discriminate | ].
        unfold onmessage, onmessage_body, dispatch. rewrite Htool, Hcancel. events_method. }
    apply Hkeeps.
  - intros [t Htool].
    assert (keeps (fun w => cancellation_events (emitted (env w))) (onmessage m)) as Hkeeps.
    { unfold onmessage, onmessage_body, dispatch. rewrite Htool. events_method. }
    apply Hkeeps.
Qed.

(** ** Suspension and the handlers run to completion *)

(** [connect] is [connect_start], then [connect_settle] on the answer of the
    transport, with nothing in between. *)
Lemma connect_settled_at_once (model : string) (cfg : LiveConnectConfig) (r : bool)
    (w : World) :
  connect model cfg r w
  = match connect_start model cfg r w with
    | (w1, Normal (Some o)) =>
        connect_settle r (live_connect (open_index o) (open_model o) (open_config o)) w1
    | (w1, Normal None) => (w1, Normal false)
    | (w1, Throw e) => (w1, Throw e)
    end.
Proof.
  unfold connect, connect_start, connect_settle, client_live_connect, client_live_open,
    settled, log, emit, try_catch, bind, read, write, ret.
  simpl.
  destruct (bool_decide (_status (this w) = connecting)
            || bool_decide (_status (this w) = connected) && negb r); reflexivity.
Qed.

Lemma clearReconnectTimeout_normal (w : World) :
  outcome clearReconnectTimeout w = Normal tt.
Proof.
  unfold outcome, clearReconnectTimeout, bind, read, clearTimeout, write, ret. simpl.
  destruct (_reconnectTimeout (this w)); reflexivity.
Qed.

Lemma connect_start_normal (model : string) (cfg : LiveConnectConfig) (r : bool)
    (w : World) :
  exists o, outcome (connect_start model cfg r) w = Normal o.
Proof.
  unfold outcome, connect_start, client_live_open, log, emit, bind, read, write, ret. simpl.
  destruct (_status (this w)), r; eexists; reflexivity.
Qed.

Lemma reconnect_settled_at_once (w : World) :
  _reconnect w = settle_at_once (_reconnect_start w).
Proof.
  rewrite reconnect_unfold.
  unfold settle_at_once, _reconnect_start. unfold bind at 1, read at 1. simpl.
  destruct (bool_decide (_status (this w) = connected)); [ reflexivity | ].
  unfold bind at 1, read at 1. simpl. unfold bind at 1. rewrite log_run. simpl.
  rewrite (after_bind_normal clearReconnectTimeout _ _ tt)
    by apply clearReconnectTimeout_normal.
  match goal with
  | |- context [after clearReconnectTimeout ?x] =>
      replace (after clearReconnectTimeout x) with (prepared w)
        by (unfold prepared; unfold after at 2; rewrite log_run; reflexivity)
  end.
  set (w1 := prepared w).
  destruct (MAX_RECONNECT_ATTEMPTS <=? _reconnectAttempts (this w)).
  - unfold bind, ret. destruct (giveUp w1) as [w2 [[] | e]]; reflexivity.
  - unfold try_catch, attemptReconnect, _reconnect_settle, bind, read, write, ret. simpl.
    destruct (_model (this w1)) as [model | ]; [ | reflexivity ].
    destruct (config (this w1)) as [cfg | ]; [ | reflexivity ].
    destruct (truthy (Some model)); [ | reflexivity ].
    rewrite connect_settled_at_once.
    destruct (connect_start model cfg true w1) as [w2 [[o | ] | e]] eqn:Hstart.
    + unfold try_catch, bind, write.
      destruct (connect_settle true _ w2) as [w3 [b | e]]; reflexivity.
    + reflexivity.
    + destruct (connect_start_normal model cfg true w1) as [o Ho].
      unfold outcome in Ho. rewrite Hstart in Ho. discriminate.
Qed.

Lemma bind_settle_at_once {A} (m : M A) (k : A -> M unit) (k' : A -> M (option Open)) :
  (forall a w, k a w = settle_at_once (k' a w)) ->
  forall w, bind m k w = settle_at_once (bind m k' w).
Proof.
  intros Hk w. unfold bind. destruct (m w) as [w1 [a | e]]; [ apply Hk | reflexivity ].
Qed.

Lemma onclose_settled_at_once (e : CloseEvent) (w : World) :
  onclose e w = settle_at_once (onclose_start e w).
Proof.
  unfold onclose, onclose_start, onclose_decision.
  do 8 (apply bind_settle_at_once; intros ? ?).
  destruct (_ && _).
  - apply bind_settle_at_once. intros _ ?. apply reconnect_settled_at_once.
  - destruct ((code e =? 1000) || (code e =? 1001)); [ | reflexivity ].
    do 2 (apply bind_settle_at_once; intros ? ?).
    unfold bind. rewrite log_run. reflexivity.
Qed.

Lemma timerDue_settled_at_once (id : TimerId) (w : World) :
  timerDue id w = settle_at_once (timerDue_start id w).
Proof.
  unfold timerDue, timerDue_start.
  destruct (timers (env w) !! id) as [[[ | ] ms] | ].
  - apply reconnect_settled_at_once.
  - destruct (keepAliveTick w) as [w1 [[] | x]]; reflexivity.
  - reflexivity.
Qed.

Lemma settle_last (p : Program) (w : World) (o : Open) (who : Waiter) :
  act (Settle (length (awaiting p))) {| world := w; awaiting := awaiting p ++ [(o, who)] |}
  = {| world :=
         after (resume who (live_connect (open_index o) (open_model o) (open_config o))) w;
       awaiting := awaiting p |}.
Proof.
  unfold act. simpl. rewrite list_lookup_middle by reflexivity.
  rewrite delete_middle, app_nil_r. reflexivity.
Qed.

(** Every operation run to completion is an interleaving: the call, and
    then at once the answer to the open it left in flight, if any. *)
Lemma perform_played (o : Op) (p : Program) :
  exists actions,
    play actions p = {| world := after (perform o) (world p); awaiting := awaiting p |}.
Proof.
  assert (forall r,
             exists actions,
               play actions (suspended AwaitedByReconnect r p)
               = {| world := fst (settle_at_once r); awaiting := awaiting p |}) as Hsettle.
  { intros [w1 [[pending | ] | x]]; simpl.
    - exists [Settle (length (awaiting p))]. apply (settle_last p).
    - exists []. reflexivity.
    - exists []. reflexivity. }
  destruct o as [model cfg isReconnect | | | err | e | m | id | chunks | responses
                 | turn complete | | | ];
    try (match goal with |- context [perform ?o] => exists [Call o] end; reflexivity).
  - pose proof (connect_settled_at_once model cfg isReconnect (world p)) as Hrun.
    destruct (connect_start model cfg isReconnect (world p)) as [w1 [[pending | ] | x]] eqn:Hstart.
    + exists [Call (Connect model cfg isReconnect); Settle (length (awaiting p))].
      change (play [Call (Connect model cfg isReconnect); Settle (length (awaiting p))] p)
        with (act (Settle (length (awaiting p))) (act (Call (Connect model cfg isReconnect)) p)).
      assert (act (Call (Connect model cfg isReconnect)) p
              = {| world := w1;
                   awaiting := awaiting p ++ [(pending, AwaitedByCaller isReconnect)] |})
        as -> by (unfold act; rewrite Hstart; reflexivity).
      rewrite (settle_last p). f_equal.
      change (perform (Connect model cfg isReconnect))
        with (discard (connect model cfg isReconnect)).
      unfold after, resume, discard. rewrite Hrun. reflexivity.
    + exists [Call (Connect model cfg isReconnect)]. simpl. rewrite Hstart. simpl. f_equal.
      change (perform (Connect model cfg isReconnect))
        with (discard (connect model cfg isReconnect)).
      unfold after, discard. rewrite Hrun. reflexivity.
    + exists [Call (Connect model cfg isReconnect)]. simpl. rewrite Hstart. simpl. f_equal.
      change (perform (Connect model cfg isReconnect))
        with (discard (connect model cfg isReconnect)).
      unfold after, discard. rewrite Hrun. reflexivity.
  - destruct (Hsettle (onclose_start e (world p))) as [actions Hplay].
    exists (Call (OnClose e) :: actions). simpl. rewrite Hplay.
    unfold after. rewrite onclose_settled_at_once. reflexivity.
  - destruct (Hsettle (timerDue_start id (world p))) as [actions Hplay].
    exists (Call (TimerDue id) :: actions). simpl. rewrite Hplay.
    unfold after. rewrite timerDue_settled_at_once. reflexivity.
Qed.

Lemma playable_play (actions : list Action) (p : Program) :
  playable p -> playable (play actions p).
Proof.
  revert p. induction actions as [ | a actions IH]; intros p Hp; simpl.
  - exact Hp.
  - apply IH, playable_act, Hp.
Qed.

(** The states reached by operations run to completion are states of the
    program, with nothing in flight. *)
Lemma reachable_playable (w : World) :
  reachable w -> playable {| world := w; awaiting := [] |}.
Proof.
  induction 1 as [ls | w o _ IH].
  - apply playable_boot.
  - destruct (perform_played o {| world := w; awaiting := [] |}) as [actions Hplay].
    simpl in Hplay. rewrite <- Hplay. apply playable_play, IH.
Qed.

(** ** The two sides of the suspension in the retry loop *)

(** The failure side of [_reconnect_settle], from any state. *)
Lemma reconnect_settle_failure (e : Thrown) (w : World) :
  let w' := after (_reconnect_settle (Throw e)) w in
  let ms :=
    (baseDelay (_reconnectAttempts (this w) + 1) + Math_random (draws (env w)) * 1000)%Q in
  outcome (_reconnect_settle (Throw e)) w = Normal tt
  /\ _reconnectAttempts (this w') = _reconnectAttempts (this w) + 1
  /\ _reconnectTimeout (this w') = Some (nextTimer (env w))
  /\ timers (env w')
     = <[nextTimer (env w) := {| kind := ReconnectTick; delay := ms |}]> (timers (env w))
  /\ draws (env w') = S (draws (env w))
  /\ transport (env w') = transport (env w)
  /\ _status (this w') = disconnected
  /\ handle_store w' = handle_store w.
Proof. cbv zeta. repeat split; reflexivity. Qed.

(** X21. The delay of a retry. When the open of a reconnect attempt fails,
    whatever happened while it was in flight, the rest of [_reconnect]
    counts the failure and arms one timer: for the attempt number n from 1
    to [MAX_RECONNECT_ATTEMPTS] and a jitter draw in [0, 1), its delay is
    1000 * 2^(n-1) plus 1000 times the draw, hence between 1000 * 2^(n-1)
    and 1000 * 2^(n-1) + 1000, and at most 30000. Each failure takes a
    fresh draw from the random source. This side of the suspension cancels
    nothing: the timer the client held was cancelled before the open. *)
Theorem retry_delay_after_failure (n : Z) (e : Thrown) (w : World) :
  1 <= n <= MAX_RECONNECT_ATTEMPTS -> _reconnectAttempts (this w) = n - 1 ->
  (0 <= Math_random (draws (env w)))%Q -> (Math_random (draws (env w)) < 1)%Q ->
  let w' := after (_reconnect_settle (Throw e)) w in
  exists ms,
    _reconnectAttempts (this w') = n
    /\ _reconnectTimeout (this w') = Some (nextTimer (env w))
    /\ timers (env w')
       = <[nextTimer (env w) := {| kind := ReconnectTick; delay := ms |}]> (timers (env w))
    /\ (ms == 1000 * Qpower 2 (n - 1) + Math_random (draws (env w)) * 1000)%Q
    /\ (1000 * Qpower 2 (n - 1) <= ms)%Q
    /\ (ms <= 1000 * Qpower 2 (n - 1) + 1000)%Q
    /\ (ms <= 30000)%Q
    /\ draws (env w') = S (draws (env w)).
Proof.
  intros Hn Hcount Hlow Hhigh. cbv zeta.
  destruct (reconnect_settle_failure e w) as (_ & Ha & Hfield & Htm & Hdr & _).
  rewrite Hcount in Ha, Htm. replace (n - 1 + 1) with n in Ha, Htm by lia.
  destruct (baseDelay_uncapped n Hn) as [Hbase Hcap].
  eexists. split; [ exact Ha | ]. split; [ exact Hfield | ]. split; [ exact Htm | ].
  split; [ rewrite Hbase; reflexivity | ].
  split; [ rewrite Hbase; lra | ].
  split; [ rewrite Hbase; lra | ].
  split; [ rewrite Hbase; lra | exact Hdr ].
Qed.

(** *** The heartbeat, with opens in flight *)

Lemma heartbeat_inv_connect_start (model : string) (cfg : LiveConnectConfig) (r : bool) :
  maintains heartbeat_inv (connect_start model cfg r).
Proof.
  apply heartbeat_inv_keeps. unfold connect_start, client_live_open. keeps_auto.
  all: intros w; reflexivity.
Qed.

Lemma heartbeat_inv_connect_settle (r : bool) (answer : Completion Session) :
  maintains heartbeat_inv (connect_settle r answer).
Proof.
  apply heartbeat_inv_keeps.
  unfold connect_settle, settled, _setSessionHandle, memory_delete. keeps_auto.
  all: intros w; reflexivity.
Qed.

Lemma heartbeat_inv_reconnect_start : maintains heartbeat_inv _reconnect_start.
Proof.
  unfold _reconnect_start, clearReconnectTimeout, giveUp.
  repeat maintains_step ltac:(first [ apply heartbeat_inv_connect_start | heartbeat_leaf ]).
Qed.

Lemma heartbeat_inv_reconnect_settle (answer : Completion Session) :
  maintains heartbeat_inv (_reconnect_settle answer).
Proof.
  unfold _reconnect_settle, scheduleRetry.
  repeat maintains_step ltac:(first [ apply heartbeat_inv_connect_settle | heartbeat_leaf ]).
Qed.

Lemma heartbeat_inv_onclose_start (e : CloseEvent) :
  maintains heartbeat_inv (onclose_start e).
Proof.
  unfold onclose_start.
  repeat maintains_step ltac:(first [ apply heartbeat_inv_reconnect_start | heartbeat_leaf ]).
Qed.

Lemma heartbeat_inv_timerDue_start (id : TimerId) :
  maintains heartbeat_inv (timerDue_start id).
Proof.
  intros w Hw. unfold after, timerDue_start.
  destruct (timers (env w) !! id) as [[[ | ] ms] | ].
  - apply heartbeat_inv_reconnect_start. exact (heartbeat_inv_clearTimeout id w Hw).
  - pose proof (heartbeat_inv_keepAliveTick w Hw) as Htick. unfold after in Htick.
    destruct (keepAliveTick w) as [w1 [[] | x]]; exact Htick.
  - exact Hw.
Qed.

Lemma heartbeat_inv_suspended (who : Waiter) (m : M (option Open)) (p : Program) :
  maintains heartbeat_inv m -> heartbeat_inv (world p) ->
  heartbeat_inv (world (suspended who (m (world p)) p)).
Proof.
  intros Hm Hp. specialize (Hm (world p) Hp). unfold after in Hm.
  destruct (m (world p)) as [w1 [[o | ] | x]]; exact Hm.
Qed.

Lemma playable_heartbeat_inv (p : Program) : playable p -> heartbeat_inv (world p).
Proof.
  induction 1 as [ls | p a _ IH].
  - destruct (constructor_this ls) as (_ & _ & _ & _ & Htm).
    intros id x Hid. simpl in Hid. rewrite Htm, lookup_empty in Hid. discriminate.
  - destruct a as [o | k].
    + destruct o; try exact (heartbeat_inv_perform _ _ IH).
      * apply heartbeat_inv_suspended; [ apply heartbeat_inv_connect_start | exact IH ].
      * apply heartbeat_inv_suspended; [ apply heartbeat_inv_onclose_start | exact IH ].
      * apply heartbeat_inv_suspended; [ apply heartbeat_inv_timerDue_start | exact IH ].
    + unfold act. destruct (awaiting p !! k) as [[o [r | ]] | ]; simpl.
      * apply maintains_discard; [ apply heartbeat_inv_connect_settle | exact IH ].
      * apply heartbeat_inv_reconnect_settle, IH.
      * exact IH.
Qed.

(** X14. In every state of the program, whatever calls, callbacks, timers
    and answers of the transport were interleaved to reach it and whatever
    opens are still in flight, every pending heartbeat is the interval the
    client holds in [_keepAliveInterval], and it runs at the heartbeat
    period. So at most one heartbeat is ever pending. *)
Theorem heartbeat_is_owned (p : Program) (id : TimerId) (x : Timer) :
  playable p -> timers (env (world p)) !! id = Some x -> kind x = HeartbeatTick ->
  _keepAliveInterval (this (world p)) = Some id /\ delay x = HEARTBEAT_INTERVAL.
Proof. intros Hp Hid Hkind. exact (playable_heartbeat_inv p Hp id x Hid Hkind). Qed.

(** X15. [disconnect] cancels the heartbeat and the retry timer the client
    holds, and holds neither afterwards: in every state of the program,
    with [close] subscribers that do not call back into the client, it
    ends with no heartbeat pending, and any timer still pending is a retry
    timer the client did not hold. It does not stop a reconnect attempt in
    flight: when the open of that attempt fails afterwards, the rest of
    [_reconnect] arms a retry timer on the disconnected client and holds
    it. *)
Theorem disconnect_cancels_held_timers (p : Program) :
  playable p ->
  let w' := after disconnect (world p) in
  _keepAliveInterval (this w') = None
  /\ _reconnectTimeout (this w') = None
  /\ (forall id x,
        timers (env w') !! id = Some x ->
        kind x = ReconnectTick
        /\ timers (env (world p)) !! id = Some x
        /\ _reconnectTimeout (this (world p)) <> Some id)
  /\ (forall e,
        let w'' := after (_reconnect_settle (Throw e)) w' in
        _status (this w'') = disconnected
        /\ _reconnectTimeout (this w'') = Some (nextTimer (env w'))
        /\ exists ms,
             timers (env w'') !! nextTimer (env w')
             = Some {| kind := ReconnectTick; delay := ms |}).
Proof.
  intros Hp. cbv zeta.
  destruct (disconnect_fields (world p)) as (_ & _ & Hka & Hrt & Htm & _).
  cbv zeta in Htm.
  split; [ exact Hka | ]. split; [ exact Hrt | ]. split.
  - intros id x Hid. rewrite Htm in Hid.
    assert (timers (env (world p)) !! id = Some x
            /\ _reconnectTimeout (this (world p)) <> Some id
            /\ _keepAliveInterval (this (world p)) <> Some id) as (Hpending & Hnot & Hka').
    { destruct (_reconnectTimeout (this (world p))) as [rt | ],
        (_keepAliveInterval (this (world p))) as [ka | ];
        repeat match goal with
          | H : delete _ _ !! _ = Some _ |- _ =>
              apply lookup_delete_Some in H; destruct H as [? H]
          end;
        repeat split; congruence. }
    split; [ | split; assumption ].
    destruct (kind x) eqn:Hkind; [ reflexivity | ].
    destruct (playable_heartbeat_inv p Hp id x Hpending Hkind) as [Hheld _]. contradiction.
  - intros e.
    destruct (reconnect_settle_failure e (after disconnect (world p)))
      as (_ & _ & Hfield & Htimers & _ & _ & Hst & _).
    split; [ exact Hst | ]. split; [ exact Hfield | ].
    eexists. rewrite Htimers. apply lookup_insert_eq.
Qed.

(** ** Giving up, closures and [disconnect], segment by segment *)








(** X3. [disconnect] on a client that is already disconnected and holds
    neither a session nor a timer is a no-op: it returns true, dispatches
    no [close] event (so that no subscriber runs), makes no call on the
    transport and changes no field; it only logs that it was called. *)
Theorem disconnect_when_idle (w : World) :
  _status (this w) = disconnected -> _session (this w) = None ->
  _keepAliveInterval (this w) = None -> _reconnectTimeout (this w) = None ->
  let w' := after disconnect w in
  outcome disconnect w = Normal true
  /\ this w' = this w
  /\ timers (env w') = timers (env w)
  /\ transport (env w') = transport (env w)
  /\ localStorage (env w') = localStorage (env w)
  /\ emitted (env w')
     = emitted (env w)
       ++ [EvLog {| type := "client.disconnect"; message := LogString "Disconnect called" |}].
Proof.
  intros Hst Hsess Hka Hrt. cbv zeta. run_handler.
  repeat (first [ rewrite Hka | rewrite Hrt | rewrite Hsess | rewrite Hst ]; simpl).
  repeat split; reflexivity.
Qed.

(** X13. [destroy] does not forget the session. Its own statements never
    write the handle, the flag or durable storage, so that, as long as no
    [close] subscriber calls back into the client, they are as before and a
    client built later over the same storage resumes the session. The
    listeners are detached and the in-memory store emptied only when
    [disconnect] returned: when a [close] subscriber raises on the closure
    dispatched, [destroy] raises too, with the listeners still attached and
    the in-memory store as it was. *)
Theorem destroy_keeps_session (w : World) :
  let w' := after destroy w in
  let raised :=
    if bool_decide (_status (this w) = disconnected) then None
    else if listening (env w) then subscriber (EvClose programmatic_disconnect)
         else None in
  _sessionHandle (this w') = _sessionHandle (this w)
  /\ _sessionResumable (this w') = _sessionResumable (this w)
  /\ localStorage (env w') = localStorage (env w)
  /\ match raised with
     | None =>
         outcome destroy w = Normal tt
         /\ listening (env w') = false
         /\ _sessionStorage (this w') = ∅
     | Some x =>
         outcome destroy w = Throw x
         /\ listening (env w') = listening (env w)
         /\ _sessionStorage (this w') = _sessionStorage (this w)
     end.
Proof.
  cbv zeta.
  destruct (disconnect_fields w)
    as (_ & _ & _ & _ & _ & Hh & Hr & _ & _ & _ & Hmem & Hls & _).
  destruct (disconnect_outcome w) as [Hout Hlisten].
  unfold after, outcome, destroy, bind, removeAllListeners, write in *.
  destruct (disconnect w) as [w1 [b | x]]; simpl in *.
  - do 3 (split; [ assumption | ]).
    destruct (bool_decide (_status (this w) = disconnected));
      [ repeat split | ].
    destruct (listening (env w)); [ | repeat split ].
    destruct (subscriber (EvClose programmatic_disconnect)); [ discriminate | repeat split ].
  - do 3 (split; [ assumption | ]).
    destruct (bool_decide (_status (this w) = disconnected)); [ discriminate | ].
    destruct (listening (env w)); [ | discriminate ].
    destruct (subscriber (EvClose programmatic_disconnect)); [ | discriminate ].
    injection Hout as <-. repeat split; assumption.
Qed.

(** ** The audio and content events of a content message *)

Lemma passes_ret : passes (ret tt).
Proof. intros w. split; reflexivity. Qed.

Lemma passes_bind (m k : M unit) : passes m -> passes k -> passes (m ;; k).
Proof.
  intros Hm Hk w. destruct (Hm w) as [Hnormal Hmedia].
  unfold outcome, after. rewrite (after_bind_normal _ _ _ tt Hnormal).
  destruct (Hk (after m w)) as [Hnormal' Hmedia'].
  split; [ exact Hnormal' | ]. etransitivity; [ exact Hmedia' | exact Hmedia ].
Qed.

Lemma passes_log (t : string) (msg : LogMessage) : passes (log t msg).
Proof. intros w. split; [ unfold outcome; rewrite log_run; reflexivity | apply media_log ]. Qed.

Lemma passes_emit (e : Event) : is_media e = false -> subscriber e = None -> passes (emit e).
Proof.
  intros Hother Hquiet w. split.
  - unfold outcome, emit. rewrite Hquiet.
    destruct e; try reflexivity; destruct (listening (env w)); reflexivity.
  - rewrite media_emit, Hother. apply app_nil_r.
Qed.

Lemma media_typed (l : list Event) : media_events (typed_events l) = media_events l.
Proof.
  induction l as [ | e l IH]; [ reflexivity | ].
  destruct e; simpl; rewrite ?IH; reflexivity.
Qed.

Lemma passes_yields (m : M unit) : yields m [] -> passes m.
Proof.
  intros Hm w. destruct (Hm w) as [[[] Hnormal] Htyped]. split; [ exact Hnormal | ].
  rewrite <- media_typed, Htyped, app_nil_r. apply media_typed.
Qed.

Lemma passes_then {B} (m : M unit) (k : M B) (l : list Event) :
  passes m ->
  (forall w, media_events (emitted (env (after k w))) = media_events (emitted (env w)) ++ l) ->
  forall w,
    media_events (emitted (env (after (m ;; k) w))) = media_events (emitted (env w)) ++ l.
Proof.
  intros Hm Hk w. destruct (Hm w) as [Hnormal Hmedia].
  unfold after at 1. rewrite (after_bind_normal _ _ _ tt Hnormal).
  fold (after k (after m w)). rewrite Hk, Hmedia. reflexivity.
Qed.

Lemma media_onmessage (m : LiveServerMessage) (w : World) :
  media_events (emitted (env (after (onmessage m) w)))
  = media_events (emitted (env (after (onmessage_body m) w))).
Proof.
  unfold onmessage, after, try_catch. destruct (onmessage_body m w) as [w1 [[] | e]]; simpl;
    [ reflexivity | ].
  rewrite media_events_app. simpl. apply app_nil_r.
Qed.

(** C3, as the code has it. For a message with a server content and neither
    a tool call nor a cancellation, as long as the dispatch of the events
    that come before the parts (session-resumption update, go-away,
    setup-complete, interrupted, turn-complete, generation-complete) does
    not raise, processing the parts emits one audio event for each audio
    part whose payload is present, non-empty and accepted by the decoder, in
    array order (an audio part with no payload, or whose payload fails to
    decode, yields no audio event), then exactly one content event bundling
    the non-audio parts in their original order, and no content event when
    there is none. So for such a message whose parts are an audio part with
    a decodable payload followed by a non-audio part: one audio event with
    the decoded bytes, then one content event with that part alone. *)
Theorem content_message_media_events :
  (forall m sc turn ps w,
      sessionResumptionUpdate m <> KeyEmpty ->
      toolCall m = None -> toolCallCancellation m = None ->
      serverContent m = Some sc -> modelTurn sc = Some turn -> parts turn = Some ps ->
      (forall e, In e (preceding_events m sc) -> subscriber e = None) ->
      media_events (emitted (env (after (onmessage m) w)))
      = media_events (emitted (env w))
        ++ flat_map audio_event (List.filter isAudioPart ps)
        ++ match List.filter (fun p => negb (isAudioPart p)) ps with
           | [] => []
           | _ :: _ =>
               [EvContent
                  (contentToEmit (List.filter (fun p => negb (isAudioPart p)) ps))]
           end)
  /\ (forall m sc turn audioPart textPart b d buf w,
        sessionResumptionUpdate m <> KeyEmpty ->
        toolCall m = None -> toolCallCancellation m = None ->
        serverContent m = Some sc -> modelTurn sc = Some turn ->
        parts turn = Some [audioPart; textPart] ->
        (forall e, In e (preceding_events m sc) -> subscriber e = None) ->
        isAudioPart audioPart = true -> isAudioPart textPart = false ->
        inlineData audioPart = Some b -> data b = Some d -> d <> "" ->
        base64ToArrayBuffer d = Normal buf ->
        media_events (emitted (env (after (onmessage m) w)))
        = media_events (emitted (env w))
          ++ [EvAudio buf; EvContent (contentToEmit [textPart])]).
Proof.
  assert (forall m sc turn ps w,
      sessionResumptionUpdate m <> KeyEmpty ->
      toolCall m = None -> toolCallCancellation m = None ->
      serverContent m = Some sc -> modelTurn sc = Some turn -> parts turn = Some ps ->
      (forall e, In e (preceding_events m sc) -> subscriber e = None) ->
      media_events (emitted (env (after (onmessage m) w)))
      = media_events (emitted (env w))
        ++ flat_map audio_event (List.filter isAudioPart ps)
        ++ match List.filter (fun p => negb (isAudioPart p)) ps with
           | [] => []
           | _ :: _ =>
               [EvContent
                  (contentToEmit (List.filter (fun p => negb (isAudioPart p)) ps))]
           end) as Hgeneral.
  { intros m sc turn ps w Hslot Htool Hcancel Hsc Hturn Hps Hquiet.
    rewrite media_onmessage. revert w. unfold onmessage_body.
    apply passes_then; [ apply passes_log | ].
    apply passes_then.
    { destruct (sessionResumptionUpdate m) as [ | | u] eqn:Hs;
        [ apply passes_ret | contradiction | ].
      unfold processResumptionUpdate.
      apply passes_bind; [ apply passes_yields, yields_applyResumptionUpdate | ].
      apply passes_emit; [ reflexivity | ].
      apply Hquiet. unfold preceding_events. rewrite Hs. left. reflexivity. }
    unfold dispatch. rewrite Htool, Hcancel, Hsc.
    apply passes_then.
    { destruct (goAway m) as [g | ] eqn:Hgo; [ | apply passes_ret ].
      apply passes_bind; [ apply passes_log | ].
      apply passes_emit; [ reflexivity | ].
      apply Hquiet. unfold preceding_events. rewrite Hgo, !in_app_iff. simpl. tauto. }
    apply passes_then.
    { destruct (setupComplete m) as [[] | ] eqn:Hsetup; [ | apply passes_ret ].
      apply passes_bind; [ apply passes_log | ].
      apply passes_emit; [ reflexivity | ].
      apply Hquiet. unfold preceding_events. rewrite Hsetup, !in_app_iff. simpl. tauto. }
    unfold processServerContent. rewrite Hturn, Hps.
    apply passes_then.
    { destruct (interrupted sc) as [flag | ] eqn:Hflag; [ | apply passes_ret ].
      apply passes_bind; [ apply passes_log | ].
      apply passes_emit; [ reflexivity | ].
      apply Hquiet. unfold preceding_events. rewrite Hflag, !in_app_iff. simpl. tauto. }
    apply passes_then.
    { destruct (turnComplete sc) as [flag | ] eqn:Hflag; [ | apply passes_ret ].
      apply passes_bind; [ apply passes_log | ].
      apply passes_emit; [ reflexivity | ].
      apply Hquiet. unfold preceding_events. rewrite Hflag, !in_app_iff. simpl. tauto. }
    apply passes_then.
    { destruct (generationComplete sc) as [[ | ] | ] eqn:Hflag; try apply passes_ret.
      apply passes_bind; [ apply passes_log | ].
      apply passes_emit; [ reflexivity | ].
      apply Hquiet. unfold preceding_events. rewrite Hflag, !in_app_iff. simpl. tauto. }
    intros w. apply media_processParts. }
  split; [ exact Hgeneral | ].
  intros m sc turn audioPart textPart b d buf w Hslot Htool Hcancel Hsc Hturn Hps Hquiet
    Ha Ht Hb Hd Hne Hdec.
  rewrite (Hgeneral m sc turn [audioPart; textPart] w) by assumption.
  simpl. rewrite Ha, Ht. simpl.
  unfold audio_event, audio_payload. rewrite Hb, Hd, Hdec.
  destruct d as [ | c d]; [ contradiction | reflexivity ].
Qed.

End GenAILiveClient.

(** ** The properties on concrete runs *)

(** A client that is told a resumable handle, loses its connection, and
    fails five reconnect attempts: when the last retry timer comes due the
    loop gives up. *)
Definition exhausted_retries : list Op :=
  [ Connect sample_model sample_config false;
    OnOpen;
    OnMessage (resumption_message (Some "H1") true);
    OnClose (closed_with 1006);
    TimerDue 2; TimerDue 3; TimerDue 4; TimerDue 5; TimerDue 6 ]%positive.

(** C2, on the code. Exhausting the reconnect attempts clears the stored
    handle but leaves the resumability flag as it was: the run ends in a
    state the client reaches with a null handle and the flag still true. *)
Lemma reconnect_ceiling_leaves_resumable_set :
  let w :=
    run sample_decode quiet_subscriber sample_random opens_once session_ok
      exhausted_retries (constructor empty_storage) in
  reachable sample_decode quiet_subscriber sample_random opens_once session_ok w
  /\ _sessionHandle (this w) = None
  /\ _sessionResumable (this w) = true
  /\ _reconnectAttempts (this w) = 0.
Proof.
  cbv zeta. split.
  - apply run_reachable, reachable_new.
  - vm_compute. repeat split; reflexivity.
Qed.

(** C3, as stated, fails: a message whose parts are an audio part and a text
    part emits no audio event at all when the payload of the audio part does
    not decode, or when the part carries no payload; only the content event
    is emitted. *)
Lemma audio_part_without_payload_emits_no_audio_event :
  media_events
    (emitted (env (after (onmessage sample_decode quiet_subscriber
                            (content_message [audio_part (Some "!!"); text_part "hello"]))
                     (constructor empty_storage))))
  = [EvContent (contentToEmit [text_part "hello"])]
  /\ media_events
       (emitted (env (after (onmessage sample_decode quiet_subscriber
                               (content_message [audio_part None; text_part "hello"]))
                        (constructor empty_storage))))
     = [EvContent (contentToEmit [text_part "hello"])].
Proof. vm_compute. split; reflexivity. Qed.

(** A client whose first open succeeded, that was told the handle H1, and
    that was then disconnected: idle, with a model, a config and a handle,
    in front of a transport that no longer opens. *)
Definition idle_with_handle : World :=
  run sample_decode quiet_subscriber sample_random opens_once session_ok
    [ Connect sample_model sample_config false;
      OnOpen;
      OnMessage (resumption_message (Some "H1") true);
      Disconnect ]
    (constructor empty_storage).

(** A client in the middle of its first open. *)
Definition opening : World :=
  run sample_decode quiet_subscriber sample_random opens_once session_ok
    [ Connect sample_model sample_config false ] (constructor empty_storage).

Definition storage_with_handle : LocalStorage :=
  {| entries := {[ HANDLE_KEY := "H0" ]}; getItem_raises := false;
     setItem_raises := false; removeItem_raises := false |}.

(** C7 on a run: a second [connect] during the first open is turned down. *)
Lemma connect_rejected_while_busy_witness :
  _status (this opening) = connecting
  /\ outcome (connect quiet_subscriber opens_once "models/other" sample_config false) opening
     = Normal false
  /\ transport (env (after (connect quiet_subscriber opens_once "models/other" sample_config
                              false) opening))
     = [LiveConnect sample_model sample_config]
  /\ _model (this (after (connect quiet_subscriber opens_once "models/other" sample_config
                            false) opening))
     = Some sample_model.
Proof.
  assert (_status (this opening) = connecting
          \/ (_status (this opening) = connected /\ false = false)) as Hbusy
      by (left; vm_compute; reflexivity).
  destruct (connect_rejected_while_busy quiet_subscriber opens_once "models/other"
              sample_config false opening Hbusy) as (Hout & Htransport & Hthis & _).
  split; [ vm_compute; reflexivity | ].
  split; [ exact Hout | ].
  split; [ rewrite Htransport; vm_compute; reflexivity | ].
  rewrite Hthis. vm_compute. reflexivity.
Defined.






(** C4 on a run: with an audio subscriber that raises on every event, a
    payload that does not decode and one that does, the handler still
    completes, both audio parts are gone through and the text part is
    emitted. *)
Lemma onmessage_never_raises_witness :
  let m :=
    content_message [audio_part (Some "!!"); audio_part (Some "UklGRg"); text_part "hello"] in
  let w := constructor empty_storage in
  outcome (onmessage sample_decode audio_subscriber_raises m) w = Normal tt
  /\ media_events (emitted (env (after (onmessage sample_decode audio_subscriber_raises m) w)))
     = [EvAudio (list_byte_of_string "UklGRg"); EvContent (contentToEmit [text_part "hello"])].
Proof.
  cbv zeta. split.
  - apply (onmessage_never_raises sample_decode audio_subscriber_raises).
  - vm_compute. reflexivity.
Defined.

(** C10 on a run: clearing the session of a connected client leaves it
    connected, with its transport session and its heartbeat. *)
Lemma clearSession_frame_witness :
  let w :=
    run sample_decode quiet_subscriber sample_random opens_once session_ok
      [ Connect sample_model sample_config false;
        OnOpen;
        OnMessage (resumption_message (Some "H1") true) ]
      (constructor empty_storage) in
  let w' := after (clearSession quiet_subscriber) w in
  _sessionHandle (this w) = Some "H1"
  /\ _sessionHandle (this w') = None
  /\ _sessionResumable (this w') = false
  /\ _status (this w') = connected
  /\ _session (this w') = Some 1%nat
  /\ map_to_list (timers (env w'))
     = [(1%positive, {| kind := HeartbeatTick; delay := HEARTBEAT_INTERVAL |})]
  /\ transport (env w') = transport (env w).
Proof.
  cbv zeta.
  match goal with
  | |- context [after (clearSession quiet_subscriber) ?w] =>
      destruct (clearSession_frame quiet_subscriber w)
        as (_ & Hh & Hr & _ & Hs & Hsess & _ & _ & _ & _ & _ & Htm & _ & Htr & _)
  end.
  split; [ vm_compute; reflexivity | ].
  split; [ exact Hh | ]. split; [ exact Hr | ].
  split; [ rewrite Hs; vm_compute; reflexivity | ].
  split; [ rewrite Hsess; vm_compute; reflexivity | ].
  split; [ rewrite Htm; vm_compute; reflexivity | ].
  exact Htr.
Defined.

(** C1 on a state: for the idle client holding H1, a close code outside the
    listed ones warrants a reconnect; a normal closure does not; and nothing
    does while connecting. *)
Lemma shouldReconnectOnClose_decision_witness :
  _shouldReconnectOnClose (this idle_with_handle) 4000 connected = true
  /\ _shouldReconnectOnClose (this idle_with_handle) 1000 connected = false
  /\ _shouldReconnectOnClose (this idle_with_handle) 1006 connected = true
  /\ _shouldReconnectOnClose (this idle_with_handle) 1006 connecting = false
  /\ _shouldReconnectOnClose blank 4000 connected = false.
Proof.
  destruct (shouldReconnectOnClose_decision (this idle_with_handle) 4000 connected)
    as (_ & _ & _ & Hother).
  destruct (shouldReconnectOnClose_decision (this idle_with_handle) 1000 connected)
    as (_ & _ & Hnormal & _).
  destruct (shouldReconnectOnClose_decision (this idle_with_handle) 1006 connected)
    as (_ & Htransient & _).
  destruct (shouldReconnectOnClose_decision (this idle_with_handle) 1006 connecting)
    as (Hconnecting & _).
  split.
  { apply Hother; try discriminate.
    - simpl. intuition discriminate.
    - left. exists "H1". split; [ vm_compute; reflexivity | discriminate ]. }
  split; [ apply Hnormal; [ discriminate | left; reflexivity ] | ].
  split; [ apply Htransient; [ discriminate | simpl; auto ] | ].
  split; [ apply Hconnecting; reflexivity | ].
  vm_compute. reflexivity.
Defined.

(** ** Further properties on concrete runs *)

(** A connected client that has been told the handle H1. *)
Definition connected_with_handle : World :=
  run sample_decode quiet_subscriber sample_random opens_once session_ok
    [ Connect sample_model sample_config false;
      OnOpen;
      OnMessage (resumption_message (Some "H1") true) ]
    (constructor empty_storage).

(** A session whose every call is refused. *)
Definition session_down (n : nat) (c : TransportCall) : option Thrown :=
  Some (ErrorObject "WebSocket is already in CLOSING or CLOSED state.").

(** A message that carries a tool call next to model output. *)
Definition tool_call_message : LiveServerMessage :=
  {| sessionResumptionUpdate := KeyAbsent; goAway := None; setupComplete := Some tt;
     toolCall :=
       Some {| functionCalls := Some [{| fc_id := Some "1"; fc_name := Some "lookup" |}] |};
     toolCallCancellation := Some {| ids := Some ["0"] |};
     serverContent :=
       Some {| modelTurn :=
                 Some {| parts := Some [audio_part (Some "UklGRg"); text_part "hello"];
                         role := Some "model" |};
               turnComplete := Some true; interrupted := None;
               generationComplete := None |} |}.

(** X1 on a state: a new handle written over the stored H0 is the one read
    back. *)
Lemma handle_write_read_back_witness :
  let w' := after (_setSessionHandle (Some "H2")) (constructor storage_with_handle) in
  _sessionHandle (this w') = Some "H2"
  /\ outcome _getSessionHandle w' = Normal (Some "H2").
Proof.
  cbv zeta.
  pose proof (handle_write_read_back "H2" (constructor storage_with_handle)) as Hwrite.
  cbv zeta in Hwrite. destruct Hwrite as (_ & Hh & _ & _ & Hread); [ discriminate | ].
  split; [ exact Hh | rewrite Hread; vm_compute; reflexivity ].
Defined.

(** X5 on a run: a [send] during the first open completes and puts nothing
    on the transport. *)
Lemma sends_are_guarded_witness :
  let sending :=
    perform sample_decode quiet_subscriber sample_random opens_once session_ok
      (Send [text_part "hello"] true) in
  outcome sending opening = Normal tt
  /\ transport (env (after sending opening)) = [LiveConnect sample_model sample_config].
Proof.
  cbv zeta.
  pose proof (sends_are_guarded sample_decode quiet_subscriber sample_random opens_once
                session_ok (Send [text_part "hello"] true) opening eq_refl) as Hsend.
  cbv zeta in Hsend. destruct Hsend as (Hout & _ & Hidle).
  split; [ exact Hout | ].
  rewrite Hidle; [ vm_compute; reflexivity | left; vm_compute; discriminate ].
Defined.

(** X6 on a run: over a session that refuses every call, both chunks are
    still handed to the transport, in order. *)
Lemma sends_when_connected_witness :
  let audio := {| chunk_mimeType := "audio/pcm"; chunk_data := "AAAA" |} in
  let image := {| chunk_mimeType := "image/jpeg"; chunk_data := "BBBB" |} in
  transport (env (after (sendRealtimeInput quiet_subscriber session_down [audio; image])
                    connected_with_handle))
  = [LiveConnect sample_model sample_config; SendRealtimeInput 1%nat audio;
     SendRealtimeInput 1%nat image].
Proof.
  cbv zeta.
  destruct (sends_when_connected quiet_subscriber session_down 1%nat connected_with_handle)
    as (Hchunks & _); [ vm_compute; reflexivity | vm_compute; reflexivity | ].
  rewrite Hchunks. vm_compute. reflexivity.
Defined.




(** X12 on a run: [disconnect], [clearSession] and [destroy] leave the
    model and the configuration on the client. *)
Lemma model_and_config_retained_witness :
  let w' :=
    run sample_decode quiet_subscriber sample_random opens_once session_ok
      [Disconnect; ClearSession; Destroy] connected_with_handle in
  _model (this w') = Some sample_model /\ config (this w') = Some sample_config.
Proof.
  cbv zeta.
  destruct (model_and_config_retained sample_decode quiet_subscriber sample_random
              opens_once session_ok [Disconnect; ClearSession; Destroy]
              connected_with_handle) as [Hm Hc].
  - repeat constructor.
  - split; [ rewrite Hm | rewrite Hc ]; vm_compute; reflexivity.
Defined.






(** X19 on a run: setup-complete comes first, the tool call next, and the
    cancellation and the content of the same message are not emitted. *)
Lemma onmessage_event_order_witness :
  typed_events
    (emitted (env (after (onmessage sample_decode quiet_subscriber tool_call_message)
                     (constructor empty_storage))))
  = [EvSetupComplete;
     EvToolCall
       {| functionCalls := Some [{| fc_id := Some "1"; fc_name := Some "lookup" |}] |}].
Proof.
  rewrite (onmessage_event_order sample_decode quiet_subscriber tool_call_message
             (constructor empty_storage))
    by reflexivity.
  vm_compute. reflexivity.
Defined.

(** X20 on a run: with an audio subscriber that raises, the message with a
    tool call still yields no output event. *)
Lemma tool_call_hides_content_witness :
  output_events
    (emitted (env (after (onmessage sample_decode audio_subscriber_raises tool_call_message)
                     (constructor empty_storage))))
  = [].
Proof.
  pose proof (tool_call_hides_content sample_decode audio_subscriber_raises
                tool_call_message (constructor empty_storage)) as Hhide.
  cbv zeta in Hhide. destruct Hhide as [Hnone _]; [ left; eexists; reflexivity | ].
  rewrite Hnone. vm_compute. reflexivity.
Defined.

(** ** Runs with opens in flight *)

(** The connection of a client that holds the handle H1 drops, and the
    first reconnect attempt is under way when the user disconnects; the
    transport then reports a closure with a transient code (that of the
    socket of the open in flight), which starts a second attempt while
    the first is still in flight; the transport refuses both opens. *)
Definition overlapping_attempts : list Action :=
  [ Call (Connect sample_model sample_config false);
    Settle 0;
    Call OnOpen;
    Call (OnMessage (resumption_message (Some "H1") true));
    Call (OnClose (closed_with 1006));
    Call Disconnect;
    Call (OnClose (closed_with 1006));
    Settle 0;
    Settle 0 ].

(** The same after four attempts have failed one after the other: the
    fifth attempt and a sixth overlap. *)
Definition overlapping_at_the_ceiling : list Action :=
  [ Call (Connect sample_model sample_config false);
    Settle 0;
    Call OnOpen;
    Call (OnMessage (resumption_message (Some "H1") true));
    Call (OnClose (closed_with 1006)); Settle 0;
    Call (TimerDue 2); Settle 0;
    Call (TimerDue 3); Settle 0;
    Call (TimerDue 4); Settle 0;
    Call (TimerDue 5);
    Call Disconnect;
    Call (OnClose (closed_with 1006));
    Settle 0;
    Settle 0 ]%positive.


(** C5, on the code. Two reconnect attempts whose opens overlap each arm a
    retry timer when they fail: the timer of the first is still pending
    when the second is armed, and the client holds only the second. *)
Lemma overlapping_attempts_leave_two_retry_timers :
  let p :=
    play sample_decode quiet_subscriber sample_random opens_once session_ok
      overlapping_attempts (boot empty_storage) in
  playable sample_decode quiet_subscriber sample_random opens_once session_ok p
  /\ awaiting p = []
  /\ _reconnectTimeout (this (world p)) = Some 3%positive
  /\ exists first second,
       timers (env (world p)) !! 2%positive = Some first
       /\ timers (env (world p)) !! 3%positive = Some second
       /\ kind first = ReconnectTick
       /\ kind second = ReconnectTick.
Proof.
  cbv zeta. split; [ apply playable_play, playable_boot | ].
  split; [ vm_compute; reflexivity | ].
  split; [ vm_compute; reflexivity | ].
  eexists. eexists.
  split; [ vm_compute; reflexivity | ].
  split; [ vm_compute; reflexivity | ].
  split; reflexivity.
Qed.

(** C9, on the code. When the fifth attempt and a sixth overlap, both pass
    the test against the ceiling with the counter at four, and both count
    their failure: the counter ends at six. *)
Lemma overlapping_attempts_exceed_ceiling :
  let p :=
    play sample_decode quiet_subscriber sample_random opens_once session_ok
      overlapping_at_the_ceiling (boot empty_storage) in
  playable sample_decode quiet_subscriber sample_random opens_once session_ok p
  /\ awaiting p = []
  /\ _reconnectAttempts (this (world p)) = 6
  /\ MAX_RECONNECT_ATTEMPTS < _reconnectAttempts (this (world p)).
Proof.
  cbv zeta. split; [ apply playable_play, playable_boot | ].
  split; [ vm_compute; reflexivity | ].
  split; vm_compute; reflexivity.
Qed.


(** A message with a spoken turn: an audio part and a text part, after
    setup-complete and with the turn marked complete. *)
Definition spoken_turn : LiveServerMessage :=
  {| sessionResumptionUpdate := KeyAbsent; goAway := None; setupComplete := Some tt;
     toolCall := None; toolCallCancellation := None;
     serverContent :=
       Some {| modelTurn :=
                 Some {| parts := Some [audio_part (Some "UklGRg"); text_part "hello"];
                         role := Some "model" |};
               turnComplete := Some true; interrupted := None;
               generationComplete := None |} |}.

(** C3 as amended, on a run: after setup-complete and turn-complete, the
    decodable audio part gives the audio event and the text part the content
    event, also when the audio subscriber raises. *)
Lemma content_message_media_events_witness :
  media_events
    (emitted (env (after (onmessage sample_decode audio_subscriber_raises spoken_turn)
                     (constructor empty_storage))))
  = [EvAudio (list_byte_of_string "UklGRg"); EvContent (contentToEmit [text_part "hello"])].
Proof.
  destruct (content_message_media_events sample_decode audio_subscriber_raises)
    as [_ Hpair].
  rewrite (Hpair spoken_turn
             {| modelTurn :=
                  Some {| parts := Some [audio_part (Some "UklGRg"); text_part "hello"];
                          role := Some "model" |};
                turnComplete := Some true; interrupted := None;
                generationComplete := None |}
             {| parts := Some [audio_part (Some "UklGRg"); text_part "hello"];
                role := Some "model" |}
             (audio_part (Some "UklGRg")) (text_part "hello")
             {| data := Some "UklGRg"; mimeType := Some "audio/pcm;rate=24000" |}
             "UklGRg" (list_byte_of_string "UklGRg") (constructor empty_storage)).
  - reflexivity.
  - discriminate.
  - reflexivity.
  - reflexivity.
  - reflexivity.
  - reflexivity.
  - reflexivity.
  - intros e [<- | [<- | []]]; reflexivity.
  - reflexivity.
  - reflexivity.
  - reflexivity.
  - reflexivity.
  - discriminate.
  - reflexivity.
Defined.

(** X3 on a state: [disconnect] on a fresh client only logs. *)
Lemma disconnect_when_idle_witness :
  let w := constructor empty_storage in
  outcome (disconnect quiet_subscriber session_ok) w = Normal true
  /\ this (after (disconnect quiet_subscriber session_ok) w) = this w.
Proof.
  cbv zeta.
  pose proof (disconnect_when_idle quiet_subscriber session_ok (constructor empty_storage))
    as Hidle.
  cbv zeta in Hidle.
  destruct Hidle as (Hout & Hthis & _); try (vm_compute; reflexivity).
  split; [ exact Hout | exact Hthis ].
Defined.



(** X14 on a run: with a reconnect attempt in flight after the connection
    was opened again, the one heartbeat pending is the one held. *)
Lemma heartbeat_is_owned_witness :
  let p :=
    play sample_decode quiet_subscriber sample_random opens_once session_ok
      [ Call (Connect sample_model sample_config false); Settle 0; Call OnOpen;
        Call (OnClose (closed_with 1006)); Call OnOpen ]
      (boot empty_storage) in
  length (awaiting p) = 1%nat
  /\ _keepAliveInterval (this (world p)) = Some 2%positive.
Proof.
  cbv zeta. split; [ vm_compute; reflexivity | ].
  refine (proj1 (heartbeat_is_owned sample_decode quiet_subscriber sample_random opens_once
                   session_ok _ 2%positive
                   {| kind := HeartbeatTick; delay := HEARTBEAT_INTERVAL |} _ _ eq_refl)).
  - apply playable_play, playable_boot.
  - vm_compute. reflexivity.
Defined.

(** X15 on a run: [disconnect] with a reconnect attempt in flight leaves
    no timer; when the attempt then fails, a retry timer is armed on the
    disconnected client. *)
Lemma disconnect_cancels_held_timers_witness :
  let p :=
    play sample_decode quiet_subscriber sample_random opens_once session_ok
      [ Call (Connect sample_model sample_config false); Settle 0; Call OnOpen;
        Call (OnClose (closed_with 1006)) ]
      (boot empty_storage) in
  let w' := after (disconnect quiet_subscriber session_ok) (world p) in
  let w'' :=
    after (_reconnect_settle quiet_subscriber sample_random
             (Throw (ErrorObject "network unreachable"))) w' in
  _reconnectTimeout (this w') = None
  /\ _status (this w'') = disconnected
  /\ _reconnectTimeout (this w'') = Some 2%positive.
Proof.
  cbv zeta.
  match goal with
  | |- context [after (disconnect quiet_subscriber session_ok) (world ?p)] =>
      pose proof (disconnect_cancels_held_timers sample_decode quiet_subscriber sample_random
                    opens_once session_ok p) as Hcancel
  end.
  cbv zeta in Hcancel.
  destruct Hcancel as (_ & Hrt & _ & Hlate); [ apply playable_play, playable_boot | ].
  destruct (Hlate (ErrorObject "network unreachable")) as (Hst & Hfield & _).
  split; [ exact Hrt | ]. split; [ exact Hst | ].
  rewrite Hfield. vm_compute. reflexivity.
Defined.

(** X21 on a state: the first failure of the idle client, with the jitter
    draw 1/2, arms a timer of 1500 ms. *)
Lemma retry_delay_after_failure_witness :
  let w' :=
    after (_reconnect_settle quiet_subscriber sample_random
             (Throw (ErrorObject "network unreachable"))) idle_with_handle in
  exists ms,
    timers (env w') !! nextTimer (env idle_with_handle)
    = Some {| kind := ReconnectTick; delay := ms |}
    /\ (ms == 1500)%Q
    /\ _reconnectAttempts (this w') = 1.
Proof.
  cbv zeta.
  destruct (retry_delay_after_failure quiet_subscriber sample_random 1
              (ErrorObject "network unreachable") idle_with_handle)
    as (ms & Ha & _ & Htm & Hms & _).
  - unfold MAX_RECONNECT_ATTEMPTS. lia.
  - vm_compute. reflexivity.
  - unfold sample_random. lra.
  - unfold sample_random. lra.
  - exists ms. split; [ rewrite Htm; apply lookup_insert_eq | ].
    split; [ rewrite Hms; vm_compute; reflexivity | exact Ha ].
Defined.

